(** * Traffic-quota monitor for cloud instances: a shallow embedding of
      [src/monitor.py] and the properties of its decision cycle.

    Conventions of the embedding.
    - Python numbers (JSON integers and floats, [time.time()] readings) are
      the rationals they denote, in [Q]; byte counts returned by the traffic
      query are integers [Z]. The division of line 128 is the true division
      of two ints: it rounds to a double and raises [OverflowError] when the
      quotient is too large for one.
    - The configuration is read as [json.load] gives it: in an [Entry] of
      [users] any key may be absent, and [user[key]] raises [KeyError] then.
      A [User] is an entry that has [instance_id], [name], [ak], [sk] and
      [region]; a [Config] lists such entries only.
    - The dict [state] created in [main] and passed by reference to every
      call is the store of the monad [M]: a mutation made before an
      exception is raised stays in the store.
    - Everything outside the process (cloud API, wall clock, Telegram, the
      two JSON files) is an [Environment]; each call made to it is also
      recorded in the list of events of the run. *)

From Stdlib Require Import ZArith QArith Lqa List.
From stdpp Require Import base option list gmap strings.
From Equations Require Import Equations.

Local Open Scope Z_scope.
Local Open Scope string_scope.
Local Open Scope list_scope.

(** ** Constants (monitor.py, lines 21-29) *)

Definition NOTIFY_COOLDOWN : Q := 3600.
Definition OVERLIMIT_COOLDOWN : Q := 86400.
Definition START_WAIT_TIMEOUT : Z := 120.
Definition START_POLL_INTERVAL : Z := 10.
Definition MAX_START_FAILURES : Q := 3.

(** [a < b] on Python numbers. *)
Definition Qlt_bool (a b : Q) : bool := negb (Qle_bool b a).

(** ** Data model *)

(** One entry of [config['users']] that has the five keys the script reads
    with [user[key]]. *)
Record User := {
  instance_id : string;
  name : string;
  ak : string;
  sk : string;
  region : string;
  traffic_limit : option Q
}.

(** [config.get('telegram', {})]. *)
Record TgConf := {
  bot_token : option string;
  chat_id : option string
}.

Record Config := {
  users : option (list User);
  telegram : option TgConf
}.

(** One entry of [config['users']] as loaded: a dict, any key of which may
    be absent. *)
Record Entry := {
  entry_instance_id : option string;
  entry_name : option string;
  entry_ak : option string;
  entry_sk : option string;
  entry_region : option string;
  entry_traffic_limit : option Q
}.

(** The configuration as loaded: [config.get('users', [])] and
    [config.get('telegram', {})]. *)
Record Settings := {
  user_entries : option (list Entry);
  telegram_entry : option TgConf
}.

Definition entry_of (user : User) : Entry :=
  {| entry_instance_id := Some (instance_id user); entry_name := Some (name user);
     entry_ak := Some (ak user); entry_sk := Some (sk user);
     entry_region := Some (region user); entry_traffic_limit := traffic_limit user |}.

(** The entry read as a [User], when it has the five keys. *)
Definition user_of (entry : Entry) : option User :=
  match entry_instance_id entry, entry_name entry,
        entry_ak entry, entry_sk entry, entry_region entry with
  | Some iid, Some n, Some a, Some k, Some r =>
      Some {| instance_id := iid; name := n; ak := a; sk := k; region := r;
              traffic_limit := entry_traffic_limit entry |}
  | _, _, _, _, _ => None
  end.

(** The entry has the two keys read outside the [try] (lines 114-115). *)
Definition keyed (entry : Entry) : bool :=
  match entry_instance_id entry, entry_name entry with
  | Some _, Some _ => true
  | _, _ => false
  end.

Definition settings_of (config : Config) : Settings :=
  {| user_entries := match users config with
                     | Some l => Some (map entry_of l)
                     | None => None
                     end;
     telegram_entry := telegram config |}.

(** A [Config] is read as the [Settings] it stands for. *)
Coercion settings_of : Config >-> Settings.

(** [AcsClient(ak, sk, region)]: the handle every cloud request goes through. *)
Record AcsClient := {
  client_ak : string;
  client_sk : string;
  client_region : string
}.

(** The state cache: instance id -> (event key or ['start_failures'] -> number). *)
Abbreviation History := (gmap string Q).
Abbreviation State := (gmap string (gmap string Q)).

Inductive exn :=
| ServerException (code : string)
| ClientException (code : string)
| IOError (path : string)
| JSONDecodeError
| KeyError (key : string)
| OverflowError.

(** What a call that may raise gives back. *)
Inductive answer (A : Type) :=
| Answer (a : A)
| Failure (e : exn).
Arguments Answer {A} a.
Arguments Failure {A} e.

(** A JSON file on disk. *)
Inductive file (A : Type) :=
| Missing
| Unreadable (e : exn)
| Content (a : A).
Arguments Missing {A}.
Arguments Unreadable {A} e.
Arguments Content {A} & a.

(** Titles and colours passed to [send_tg_alert]; the message keeps the
    values its f-string interpolates. *)
Inductive title :=
| TitleNoResource      (* "资源不足告警" *)
| TitleResumed         (* "恢复监控" *)
| TitleStartFailed     (* "启动失败告警" *)
| TitleOverlimitStop   (* "流量预警" *)
| TitleOverlimitStill. (* "流量超标提醒" *)

Inductive color := green | red.

Record message := {
  msg_name : string;
  msg_gb : Q;
  msg_failures : option Q
}.

(** The log lines of [check_and_act], [load_config] and [save_state]. *)
Inductive log_line :=
| LogConfigMissing
| LogSaveFailed (e : exn)
| LogNotFound (name iid : string)
| LogNoResource (name : string) (failures : Q)
| LogTryStart (name : string)
| LogWaiting (name : string) (real_status : option string) (waited : Z)
| LogResumed (name : string)
| LogStartTimeout (name : string) (new_failures : Q)
| LogRunning (name : string)
| LogIntermediate (name status : string)
| LogStopping (name : string)
| LogStillStopped (name : string)
| LogCheckError (name : string) (e : exn)
| LogTgFailed (e : exn).

(** What the process does to the outside, in order. [EvAlert] is a call
    of [send_tg_alert], [EvPost] the HTTP request it makes when the bot is
    configured; [EvStart] and [EvStop] are the commands as sent, whatever
    the cloud answers; [EvTime] is a reading of the clock. *)
Inductive event :=
| EvTime (t : Q)
| EvSleep (secs : Z)
| EvTraffic (c : AcsClient)
| EvDescribe (c : AcsClient) (iid : string)
| EvStart (c : AcsClient) (iid : string)
| EvStop (c : AcsClient) (iid : string)
| EvAlert (t : title) (m : message) (c : color)
| EvPost (token chat : string) (t : title) (m : message)
| EvLog (l : log_line)
| EvLoadConfig
| EvLoadState
| EvSave (s : State).

(** ** The environment *)

Class Environment (W : Type) := {
  (** [time.time()] *)
  wall_clock : W → Q * W;
  (** [time.sleep(secs)] *)
  suspend : Z → W → W;
  (** [ListCdtInternetTraffic]: the ['Traffic'] field of each entry of
      ['TrafficDetails'] ([None] when the entry has none). *)
  list_cdt_internet_traffic : AcsClient → W → answer (list (option Z)) * W;
  (** [DescribeInstances]: the ['Status'] field of each entry of
      ['Instances']['Instance']. *)
  describe_instances : AcsClient → string → W → answer (list (option string)) * W;
  start_instance : AcsClient → string → W → answer unit * W;
  stop_instance : AcsClient → string → W → answer unit * W;
  (** [requests.post(url, json=data, timeout=5)] *)
  requests_post : string → string → title → message → W → answer unit * W;
  config_file : W → file Settings;
  state_file : W → file State;
  write_state_file : State → W → answer unit * W
}.

(** ** The monad of the script *)

Inductive outcome (A : Type) :=
| Done (a : A)
| Raised (e : exn)
| Exited (code : Z).
Arguments Done {A} a.
Arguments Raised {A} e.
Arguments Exited {A} code.

Record run (W A : Type) := Run {
  result : outcome A;
  store : State;
  world : W;
  events : list event
}.
Arguments Run {W A} result store world events.
Arguments result {W A} r.
Arguments store {W A} r.
Arguments world {W A} r.
Arguments events {W A} r.

Definition M (W A : Type) : Type := State → W → run W A.

Section Monad.
Context {W : Type}.

Definition ret {A} (a : A) : M W A := fun s w => Run (Done a) s w [].

Definition bind {A B} (c : M W A) (k : A → M W B) : M W B := fun s w =>
  match c s w with
  | Run (Done a) s1 w1 evs1 =>
      match k a s1 w1 with
      | Run res s2 w2 evs2 => Run res s2 w2 (evs1 ++ evs2)
      end
  | Run (Raised e) s1 w1 evs1 => Run (Raised e) s1 w1 evs1
  | Run (Exited n) s1 w1 evs1 => Run (Exited n) s1 w1 evs1
  end.

Definition raise {A} (e : exn) : M W A := fun s w => Run (Raised e) s w [].

(** [sys.exit(code)] *)
Definition sys_exit {A} (code : Z) : M W A := fun s w => Run (Exited code) s w [].

(** [try: c except Exception as e: h e]; [SystemExit] is not an [Exception]. *)
Definition try_except {A} (c : M W A) (h : exn → M W A) : M W A := fun s w =>
  match c s w with
  | Run (Raised e) s1 w1 evs1 =>
      match h e s1 w1 with
      | Run res s2 w2 evs2 => Run res s2 w2 (evs1 ++ evs2)
      end
  | r => r
  end.

Definition emit (e : event) : M W unit := fun s w => Run (Done tt) s w [e].

(** Reading and updating the shared dict. *)
Definition get_store : M W State := fun s w => Run (Done s) s w [].
Definition modify (f : State → State) : M W unit := fun s w => Run (Done tt) (f s) w [].

(** A call to the environment that cannot raise. *)
Definition perform {A} (f : W → A * W) : M W A := fun s w =>
  Run (Done (f w).1) s (f w).2 [].

(** A call to the environment that may raise. *)
Definition request {A} (f : W → answer A * W) : M W A := fun s w =>
  match (f w).1 with
  | Answer a => Run (Done a) s (f w).2 []
  | Failure e => Run (Raised e) s (f w).2 []
  end.
End Monad.

Declare Scope monitor_scope.
Delimit Scope monitor_scope with M.
Notation "x ← c ; k" := (bind c (fun x => k))
  (at level 20, c at level 100, k at level 200, only parsing) : monitor_scope.
Notation "c ;; k" := (bind c (fun _ => k))
  (at level 100, k at level 200, only parsing, right associativity) : monitor_scope.
Local Open Scope monitor_scope.

(** ** True division (monitor.py, lines 127-128)

    [total_bytes / (1024 ** 3)] divides two ints: the result is the double
    nearest to the quotient, ties going to the even mantissa, and
    [OverflowError] is raised when that double would be 2^1024 or more.
    Dividing by 2^30 only moves the exponent, so the double is the byte
    count rounded to 53 significant bits, over 2^30. *)

(** The integer nearest to [n / d], the even one of the two on a tie
    ([0 < d]). *)
Definition round_half_even (n d : Z) : Z :=
  let q := n / d in
  let r := n mod d in
  if Z.ltb (2 * r) d then q
  else if Z.ltb d (2 * r) then q + 1
  else if Z.even q then q else q + 1.

(** [n] rounded to 53 significant bits. *)
Definition round53 (n : Z) : Z :=
  let shift := Z.log2 (Z.abs n) + 1 - 53 in
  if Z.leb shift 0 then n
  else Z.sgn n * (round_half_even (Z.abs n) (2 ^ shift) * 2 ^ shift).

(** [sum(d.get('Traffic', 0) for d in ...)] (line 127). *)
Definition total_bytes (details : list (option Z)) : Z :=
  foldr Z.add 0 (map (default 0) details).

(** The value of [total_bytes / (1024 ** 3)] when the division returns. *)
Definition gigabytes (details : list (option Z)) : Q :=
  (inject_Z (round53 (total_bytes details)) / inject_Z (1024 ^ 3))%Q.

(** Whether the division returns: the rounded quotient is below 2^1024. *)
Definition fits (details : list (option Z)) : bool :=
  Z.ltb (Z.abs (round53 (total_bytes details))) (2 ^ (1024 + 30)).

Arguments round53 : simpl never.
Arguments gigabytes : simpl never.
Arguments fits : simpl never.

(** ** Doubles

    [time.time()] gives a double and [time.time() - last_ts] (line 71) is
    the difference of two doubles, rounded to a double. The functions of
    the state cache below compute the difference exactly: this is the
    result of the script whenever the exact difference is itself a double,
    which is so for readings of the clock on a common grid, such as those
    between 2^30 and 2^31 seconds (multiples of 2^-22). *)

(** [p] as an odd number times a power of two. *)
Fixpoint odd_part (p : positive) : positive * Z :=
  match p with
  | xO p' => let (m, e) := odd_part p' in (m, e + 1)
  | _ => (p, 0)
  end.

(** [q] is the value of a finite double: 0, or an odd [m] below 2^53 times
    a power of two, with the exponent in the range of the format. *)
Definition is_double (q : Q) : bool :=
  match Qnum (Qred q) with
  | 0 => true
  | n =>
      let (m, e) := odd_part (Z.to_pos (Z.abs n)) in
      let (d, f) := odd_part (Qden (Qred q)) in
      Pos.eqb d 1 && Z.ltb (Z.pos m) (2 ^ 53) &&
      Z.leb (-1074) (e - f) && Z.leb (e - f + Z.log2 (Z.pos m)) 1023
  end.

(** ** State cache (monitor.py, lines 66-83)

    The functions below take the dict as an argument and give the updated
    dict back; [now] is the reading of [time.time()] made inside the call. *)

(** [state.setdefault(instance_id, {})] followed by a mutation [f] of the
    inner dict so obtained. *)
Definition setdefault_with (f : History → History)
    (instance_id : string) (state : State) : State :=
  <[instance_id := f (default ∅ (state !! instance_id))]> state.

(** [state.get(instance_id, {}).get(key)]: the number stored for the
    instance under the key, if any. *)
Definition stored (state : State) (instance_id key : string) : option Q :=
  default ∅ (state !! instance_id) !! key.

(** [state.get(instance_id, {}).get(key, 0)] *)
Definition get_number (state : State) (instance_id key : string) : Q :=
  default 0%Q (stored state instance_id key).

Definition can_notify (now : Q) (state : State) (instance_id event_key : string)
    (cooldown : option Q) : bool :=
  let cooldown := default NOTIFY_COOLDOWN cooldown in
  let last_ts := get_number state instance_id event_key in
  Qle_bool cooldown (now - last_ts).

Definition mark_notified (now : Q) (state : State) (instance_id event_key : string) : State :=
  setdefault_with (<[event_key := now]>) instance_id state.

Definition get_start_failures (state : State) (instance_id : string) : Q :=
  get_number state instance_id "start_failures".

Definition set_start_failures (state : State) (instance_id : string) (count : Q) : State :=
  setdefault_with (<["start_failures" := count]>) instance_id state.

Definition reset_start_failures (state : State) (instance_id : string) : State :=
  setdefault_with (<["start_failures" := 0%Q]>) instance_id state.

(** [state.setdefault(instance_id, {}).pop('no_resource', None)] (line 175) *)
Definition clear_no_resource (state : State) (instance_id : string) : State :=
  setdefault_with (delete "no_resource") instance_id state.

(** ** The script *)

Section Script.
Context {W : Type} {E : Environment W}.

Definition log (l : log_line) : M W unit := emit (EvLog l).

Definition time_time : M W Q :=
  now ← perform wall_clock;
  emit (EvTime now);;
  ret now.

Definition time_sleep (secs : Z) : M W unit :=
  emit (EvSleep secs);;
  perform (fun w => (tt, suspend secs w)).

(** [can_notify] and [mark_notified] on the shared dict, at the time of the call. *)
Definition can_notify_now (instance_id event_key : string) (cooldown : option Q) : M W bool :=
  state ← get_store;
  now ← time_time;
  ret (can_notify now state instance_id event_key cooldown).

Definition mark_notified_now (instance_id event_key : string) : M W unit :=
  now ← time_time;
  modify (fun state => mark_notified now state instance_id event_key).

(** Python truth value of [tg_conf.get(key)]. *)
Definition truthy (o : option string) : bool :=
  match o with
  | Some s => negb (String.eqb s "")
  | None => false
  end.

(** Lines 87-97. *)
Definition send_tg_alert (tg_conf : TgConf) (t : title) (m : message) (color_status : color)
    : M W unit :=
  emit (EvAlert t m color_status);;
  if negb (truthy (bot_token tg_conf)) || negb (truthy (chat_id tg_conf)) then ret tt
  else
    let token := default "" (bot_token tg_conf) in
    let chat := default "" (chat_id tg_conf) in
    try_except
      (emit (EvPost token chat t m);;
       request (requests_post token chat t m))
      (fun e => log (LogTgFailed e)).

(** Lines 106-109: [None] when the list is empty, else the ['Status'] of
    its first entry. *)
Definition first_status (instances : list (option string)) : option string :=
  match instances with
  | [] => None
  | i :: _ => i
  end.

(** Lines 101-109. *)
Definition get_instance_status (client : AcsClient) (instance_id : string)
    : M W (option string) :=
  emit (EvDescribe client instance_id);;
  instances ← request (describe_instances client instance_id);
  ret (first_status instances).

(** The pattern of lines 146-151, 177-180, 186-192, 209-212 and 216-219:
    [if can_notify(state, id, key, cooldown): send_tg_alert(...);
    mark_notified(state, id, key)]. *)
Definition notify (tg_conf : TgConf) (instance_id event_key : string) (cooldown : option Q)
    (t : title) (m : message) (c : color) : M W unit :=
  due ← can_notify_now instance_id event_key cooldown;
  if due : bool then
    send_tg_alert tg_conf t m c;;
    mark_notified_now instance_id event_key
  else ret tt.

(** The polling loop of lines 160-169: the value of [started] when the
    loop is left, entered with the given value of [waited]. *)
Equations? wait_running (client : AcsClient) (instance_id name : string) (waited : Z)
    : M W bool by wf (Z.to_nat (START_WAIT_TIMEOUT - waited)) lt :=
  wait_running client instance_id name waited with Z_lt_dec waited START_WAIT_TIMEOUT := {
    | left _ :=
        time_sleep START_POLL_INTERVAL;;
        let waited := waited + START_POLL_INTERVAL in
        real_status ← get_instance_status client instance_id;
        log (LogWaiting name real_status waited);;
        if decide (real_status = Some "Running") then ret true
        else wait_running client instance_id name waited
    | right _ := ret false }.
Proof. unfold START_WAIT_TIMEOUT, START_POLL_INTERVAL in *. lia. Qed.

(** Lines 144-152: too many failed starts, no retry. *)
Definition resource_exhausted (user : User) (tg_conf : TgConf) (curr_gb failures : Q)
    : M W unit :=
  log (LogNoResource (name user) failures);;
  notify tg_conf (instance_id user) "no_resource" None TitleNoResource
    {| msg_name := name user; msg_gb := curr_gb; msg_failures := Some failures |} red.

(** Lines 171-180: the instance reached Running. *)
Definition start_confirmed (user : User) (tg_conf : TgConf) (curr_gb : Q) : M W unit :=
  modify (fun state => reset_start_failures state (instance_id user));;
  modify (fun state => clear_no_resource state (instance_id user));;
  log (LogResumed (name user));;
  notify tg_conf (instance_id user) "resumed" None TitleResumed
    {| msg_name := name user; msg_gb := curr_gb; msg_failures := None |} green.

(** Lines 181-192: the wait timed out. *)
Definition start_timed_out (user : User) (tg_conf : TgConf) (curr_gb failures : Q)
    : M W unit :=
  let new_failures := (failures + 1)%Q in
  modify (fun state => set_start_failures state (instance_id user) new_failures);;
  log (LogStartTimeout (name user) new_failures);;
  notify tg_conf (instance_id user) "start_failed" None TitleStartFailed
    {| msg_name := name user; msg_gb := curr_gb; msg_failures := Some new_failures |} red.

(** Lines 139-200: traffic below the limit. *)
Definition safe_branch (user : User) (tg_conf : TgConf) (client : AcsClient)
    (curr_gb : Q) (status : string) : M W unit :=
  if decide (status = "Stopped") then
    state ← get_store;
    let failures := get_start_failures state (instance_id user) in
    if Qle_bool MAX_START_FAILURES failures then
      resource_exhausted user tg_conf curr_gb failures
    else
      log (LogTryStart (name user));;
      emit (EvStart client (instance_id user));;
      request (start_instance client (instance_id user));;
      started ← wait_running client (instance_id user) (name user) 0;
      if started : bool then start_confirmed user tg_conf curr_gb
      else start_timed_out user tg_conf curr_gb failures
  else if decide (status = "Running") then
    modify (fun state => reset_start_failures state (instance_id user));;
    log (LogRunning (name user))
  else
    log (LogIntermediate (name user) status).

(** Lines 202-219: traffic at or above the limit. *)
Definition overlimit_branch (user : User) (tg_conf : TgConf) (client : AcsClient)
    (curr_gb : Q) (status : string) : M W unit :=
  if decide (status = "Running") then
    log (LogStopping (name user));;
    emit (EvStop client (instance_id user));;
    request (stop_instance client (instance_id user));;
    notify tg_conf (instance_id user) "overlimit" (Some OVERLIMIT_COOLDOWN) TitleOverlimitStop
      {| msg_name := name user; msg_gb := curr_gb; msg_failures := None |} red
  else
    log (LogStillStopped (name user));;
    notify tg_conf (instance_id user) "overlimit" (Some OVERLIMIT_COOLDOWN) TitleOverlimitStill
      {| msg_name := name user; msg_gb := curr_gb; msg_failures := None |} red.

(** [curr_gb = total_bytes / (1024 ** 3)] (line 128) *)
Definition true_divide (details : list (option Z)) : M W Q :=
  if fits details then ret (gigabytes details) else raise OverflowError.

(** [user.get('traffic_limit', 180)] (line 137) *)
Definition limit_of (user : User) : Q := default 180%Q (traffic_limit user).

(** [AcsClient(user['ak'], user['sk'], user['region'])] (line 117) *)
Definition client_of (user : User) : AcsClient :=
  {| client_ak := ak user; client_sk := sk user; client_region := region user |}.

(** Lines 117-219: the body of the [try]. *)
Definition cycle_body (user : User) (tg_conf : TgConf) : M W unit :=
  let client := client_of user in
  emit (EvTraffic client);;
  details ← request (list_cdt_internet_traffic client);
  curr_gb ← true_divide details;
  status ← get_instance_status client (instance_id user);
  match status with
  | None => log (LogNotFound (name user) (instance_id user))
  | Some status =>
      let limit := limit_of user in
      if Qlt_bool curr_gb limit then safe_branch user tg_conf client curr_gb status
      else overlimit_branch user tg_conf client curr_gb status
  end.

(** Lines 113-222, for an entry that has its five keys. *)
Definition check_and_act (user : User) (tg_conf : TgConf) : M W unit :=
  try_except (cycle_body user tg_conf) (fun e => log (LogCheckError (name user) e)).

(** Lines 113-222, for an entry as loaded: [user['instance_id']] and
    [user['name']] are read before the [try] (lines 114-115), the three
    credentials inside it (line 117). *)
Definition check_and_act_entry (entry : Entry) (tg_conf : TgConf) : M W unit :=
  match entry_instance_id entry with
  | None => raise (KeyError "instance_id")
  | Some iid =>
      match entry_name entry with
      | None => raise (KeyError "name")
      | Some n =>
          try_except
            match entry_ak entry, entry_sk entry, entry_region entry with
            | Some a, Some k, Some r =>
                cycle_body {| instance_id := iid; name := n; ak := a; sk := k; region := r;
                              traffic_limit := entry_traffic_limit entry |} tg_conf
            | None, _, _ => raise (KeyError "ak")
            | _, None, _ => raise (KeyError "sk")
            | _, _, None => raise (KeyError "region")
            end
            (fun e => log (LogCheckError n e))
      end
  end.

(** Lines 41-46. *)
Definition load_config : M W Settings :=
  emit EvLoadConfig;;
  f ← perform (fun w => (config_file w, w));
  match f with
  | Missing => log LogConfigMissing;; sys_exit 1
  | Unreadable e => raise e
  | Content config => ret config
  end.

(** Lines 50-57: the content of the state file, [{}] when the file is
    missing or cannot be read. *)
Definition load_state : M W State :=
  emit EvLoadState;;
  f ← perform (fun w => (state_file w, w));
  ret (match f with
       | Content state => state
       | _ => ∅
       end).

(** Lines 59-64. *)
Definition save_state : M W unit :=
  state ← get_store;
  emit (EvSave state);;
  try_except (request (write_state_file state)) (fun e => log (LogSaveFailed e)).

(** [for x in l: body x] *)
Fixpoint for_each {A} (l : list A) (body : A → M W unit) : M W unit :=
  match l with
  | [] => ret tt
  | x :: l => body x;; for_each l body
  end.

Definition no_telegram : TgConf := {| bot_token := None; chat_id := None |}.

(** Lines 224-229. *)
Definition main : M W unit :=
  config ← load_config;
  state ← load_state;
  modify (fun _ => state);;
  for_each (default [] (user_entries config))
    (fun user => check_and_act_entry user (default no_telegram (telegram_entry config)));;
  save_state.

End Script.

(** The exit status of the interpreter: 0 when [main] returns, the argument
    of [sys.exit], 1 with a traceback for an exception nobody caught. *)
Definition exit_status {A} (o : outcome A) : Z :=
  match o with
  | Done _ => 0
  | Raised _ => 1
  | Exited code => code
  end.

(** ** A scripted environment

    The clock shows [clock] and moves forward by [tick] at every reading and
    by the time slept; the cloud answers from the scripts, in order; a
    write that succeeds replaces the content of the state file. *)

Record Scripted := {
  clock : Q;
  tick : Q;
  traffic : answer (list (option Z));
  statuses : list (answer (list (option string)));
  start_answer : answer unit;
  stop_answer : answer unit;
  post_answer : answer unit;
  config_json : file Settings;
  state_json : file State;
  write_answer : answer unit
}.

Definition set_clock (t : Q) (w : Scripted) : Scripted :=
  {| clock := t; tick := tick w; traffic := traffic w; statuses := statuses w;
     start_answer := start_answer w; stop_answer := stop_answer w;
     post_answer := post_answer w; config_json := config_json w;
     state_json := state_json w; write_answer := write_answer w |}.

Definition set_statuses (l : list (answer (list (option string)))) (w : Scripted) : Scripted :=
  {| clock := clock w; tick := tick w; traffic := traffic w; statuses := l;
     start_answer := start_answer w; stop_answer := stop_answer w;
     post_answer := post_answer w; config_json := config_json w;
     state_json := state_json w; write_answer := write_answer w |}.

Definition set_state_json (f : file State) (w : Scripted) : Scripted :=
  {| clock := clock w; tick := tick w; traffic := traffic w; statuses := statuses w;
     start_answer := start_answer w; stop_answer := stop_answer w;
     post_answer := post_answer w; config_json := config_json w;
     state_json := f; write_answer := write_answer w |}.

#[export] Instance scripted_environment : Environment Scripted := {|
  wall_clock w := (clock w, set_clock (clock w + tick w)%Q w);
  suspend secs w := set_clock (clock w + inject_Z secs)%Q w;
  list_cdt_internet_traffic _ w := (traffic w, w);
  describe_instances _ _ w :=
    match statuses w with
    | [] => (Answer [], w)
    | a :: l => (a, set_statuses l w)
    end;
  start_instance _ _ w := (start_answer w, w);
  stop_instance _ _ w := (stop_answer w, w);
  requests_post _ _ _ _ w := (post_answer w, w);
  config_file w := config_json w;
  state_file w := state_json w;
  write_state_file state w :=
    (write_answer w,
     match write_answer w with
     | Answer _ => set_state_json (Content state) w
     | Failure _ => w
     end)
|}.

(** ** Reading the events of a run *)

Fixpoint count (p : event → bool) (evs : list event) : nat :=
  match evs with
  | [] => 0
  | e :: evs => (if p e then 1 else 0) + count p evs
  end.

Definition is_alert (e : event) : bool :=
  match e with EvAlert _ _ _ => true | _ => false end.

Definition is_poll (e : event) : bool :=
  match e with EvDescribe _ _ => true | _ => false end.

Definition is_traffic (e : event) : bool :=
  match e with EvTraffic _ => true | _ => false end.

Definition is_save (e : event) : bool :=
  match e with EvSave _ => true | _ => false end.

(** A start (stop) command for the given instance. *)
Definition is_start (iid : string) (e : event) : bool :=
  match e with EvStart _ i => bool_decide (i = iid) | _ => false end.

Definition is_stop (iid : string) (e : event) : bool :=
  match e with EvStop _ i => bool_decide (i = iid) | _ => false end.

(** What [send_tg_alert] does after it was called: the post and its error log. *)
Definition is_delivery (e : event) : bool :=
  match e with
  | EvPost _ _ _ _ => true
  | EvLog (LogTgFailed _) => true
  | _ => false
  end.

(** The events of the rounds of the polling loop in which the status query
    answered [seen], entered with the given value of [waited]. *)
Fixpoint rounds (client : AcsClient) (iid name : string) (waited : Z)
    (seen : list (option string)) : list event :=
  match seen with
  | [] => []
  | st :: seen =>
      EvSleep START_POLL_INTERVAL :: EvDescribe client iid ::
      EvLog (LogWaiting name st (waited + START_POLL_INTERVAL)) ::
      rounds client iid name (waited + START_POLL_INTERVAL) seen
  end.

(** The log lines of the two error exits of a cycle (lines 133 and 222). *)
Definition is_abort (e : event) : bool :=
  match e with
  | EvLog (LogCheckError _ _) => true
  | EvLog (LogNotFound _ _) => true
  | _ => false
  end.

(** A round of the polling loop that saw the instance Running. *)
Definition is_running_seen (e : event) : bool :=
  match e with
  | EvLog (LogWaiting _ (Some st) _) => bool_decide (st = "Running")
  | _ => false
  end.

(** An alert of either overlimit kind about the target called [n]. *)
Definition is_overlimit_alert (n : string) (e : event) : bool :=
  match e with
  | EvAlert TitleOverlimitStop m _ => bool_decide (msg_name m = n)
  | EvAlert TitleOverlimitStill m _ => bool_decide (msg_name m = n)
  | _ => false
  end.

(** The clients of the traffic queries made, in order: one opens each cycle. *)
Fixpoint traffic_queries (evs : list event) : list AcsClient :=
  match evs with
  | [] => []
  | EvTraffic c :: evs => c :: traffic_queries evs
  | _ :: evs => traffic_queries evs
  end.

(** The seconds spent in [time.sleep]. *)
Fixpoint slept (evs : list event) : Z :=
  match evs with
  | [] => 0
  | EvSleep secs :: evs => secs + slept evs
  | _ :: evs => slept evs
  end.

Definition is_reading (e : event) : bool :=
  match e with EvTime _ => true | _ => false end.

(** What [save_state] logs after the write, given what the write answered
    (lines 63-64). *)
Definition save_tail (a : answer unit) : list event :=
  match a with
  | Answer _ => []
  | Failure e => [EvLog (LogSaveFailed e)]
  end.

(** A start or a stop command, for any instance. *)
Definition is_command (e : event) : bool :=
  match e with EvStart _ _ => true | EvStop _ _ => true | _ => false end.

(** The event key under which the script marks the alert of each title
    (lines 146-151, 177-180, 186-192, 209-212, 216-219). *)
Definition key_of_title (t : title) : string :=
  match t with
  | TitleNoResource => "no_resource"
  | TitleResumed => "resumed"
  | TitleStartFailed => "start_failed"
  | TitleOverlimitStop => "overlimit"
  | TitleOverlimitStill => "overlimit"
  end.

(** ** Reading a run

    The relations below say what a block of the script leaves behind: the
    dict and the events. The lemmas further down show that every run of the
    block is of one of the forms listed. *)

Section Outcomes.
Context {W : Type} {E : Environment W}.

(** What a [notify] block leaves behind: either the cooldown has not
    elapsed and nothing happens, or one alert is sent and the key is marked
    with a later reading of the clock. *)
Inductive notified (iid key : string) (cooldown : option Q) (t : title) (m : message)
    (c : color) (s : State) : State → list event → Prop :=
| notified_quiet now :
    can_notify now s iid key cooldown = false →
    notified iid key cooldown t m c s s [EvTime now]
| notified_sent now posts now' :
    can_notify now s iid key cooldown = true →
    count is_delivery posts = length posts →
    notified iid key cooldown t m c s (mark_notified now' s iid key)
      (EvTime now :: EvAlert t m c :: posts ++ [EvTime now']).

(** How the polling loop can end when at most [k] rounds remain: Running
    seen in the last round made, [k] rounds without Running, or a status
    query that raised. *)
Inductive polled (client : AcsClient) (iid name : string) (waited : Z) (k : nat)
    : outcome bool → list event → Prop :=
| polled_running seen :
    Some "Running" ∉ seen → (length seen < k)%nat →
    polled client iid name waited k (Done true)
      (rounds client iid name waited (seen ++ [Some "Running"]))
| polled_timeout seen :
    Some "Running" ∉ seen → length seen = k →
    polled client iid name waited k (Done false) (rounds client iid name waited seen)
| polled_error seen e :
    Some "Running" ∉ seen → (length seen < k)%nat →
    polled client iid name waited k (Raised e)
      (rounds client iid name waited seen ++
       [EvSleep START_POLL_INTERVAL; EvDescribe client iid]).

(** The two queries that open a cycle answered and the division in between
    returned: [curr_gb] and [status]. *)
Definition observes (u : User) (w : W) (curr_gb : Q) (status : string) : Prop :=
  ∃ details w1 instances w2,
    list_cdt_internet_traffic (client_of u) w = (Answer details, w1) ∧
    fits details = true ∧
    describe_instances (client_of u) (instance_id u) w1 = (Answer instances, w2) ∧
    first_status instances = Some status ∧
    curr_gb = gigabytes details.

(** The ways through one call of [check_and_act], with the dict it leaves
    and the events it produces. *)
Inductive cycle (u : User) (tg : TgConf) (s : State) (w : W) : State → list event → Prop :=
| cycle_traffic_error e w1 :
    list_cdt_internet_traffic (client_of u) w = (Failure e, w1) →
    cycle u tg s w s [EvTraffic (client_of u); EvLog (LogCheckError (name u) e)]
| cycle_overflow details w1 :
    list_cdt_internet_traffic (client_of u) w = (Answer details, w1) →
    fits details = false →
    cycle u tg s w s [EvTraffic (client_of u); EvLog (LogCheckError (name u) OverflowError)]
| cycle_status_error details w1 e w2 :
    list_cdt_internet_traffic (client_of u) w = (Answer details, w1) →
    fits details = true →
    describe_instances (client_of u) (instance_id u) w1 = (Failure e, w2) →
    cycle u tg s w s
      [EvTraffic (client_of u); EvDescribe (client_of u) (instance_id u);
       EvLog (LogCheckError (name u) e)]
| cycle_not_found details w1 instances w2 :
    list_cdt_internet_traffic (client_of u) w = (Answer details, w1) →
    fits details = true →
    describe_instances (client_of u) (instance_id u) w1 = (Answer instances, w2) →
    first_status instances = None →
    cycle u tg s w s
      [EvTraffic (client_of u); EvDescribe (client_of u) (instance_id u);
       EvLog (LogNotFound (name u) (instance_id u))]
| cycle_exhausted gb s' evs :
    observes u w gb "Stopped" →
    Qlt_bool gb (limit_of u) = true →
    Qle_bool MAX_START_FAILURES (get_start_failures s (instance_id u)) = true →
    notified (instance_id u) "no_resource" None TitleNoResource
      {| msg_name := name u; msg_gb := gb;
         msg_failures := Some (get_start_failures s (instance_id u)) |} red s s' evs →
    cycle u tg s w s'
      (EvTraffic (client_of u) :: EvDescribe (client_of u) (instance_id u) ::
       EvLog (LogNoResource (name u) (get_start_failures s (instance_id u))) :: evs)
| cycle_start_error gb e :
    observes u w gb "Stopped" →
    Qlt_bool gb (limit_of u) = true →
    Qle_bool MAX_START_FAILURES (get_start_failures s (instance_id u)) = false →
    cycle u tg s w s
      [EvTraffic (client_of u); EvDescribe (client_of u) (instance_id u);
       EvLog (LogTryStart (name u)); EvStart (client_of u) (instance_id u);
       EvLog (LogCheckError (name u) e)]
| cycle_poll_error gb e polls :
    observes u w gb "Stopped" →
    Qlt_bool gb (limit_of u) = true →
    Qle_bool MAX_START_FAILURES (get_start_failures s (instance_id u)) = false →
    polled (client_of u) (instance_id u) (name u) 0 12 (Raised e) polls →
    cycle u tg s w s
      (EvTraffic (client_of u) :: EvDescribe (client_of u) (instance_id u) ::
       EvLog (LogTryStart (name u)) :: EvStart (client_of u) (instance_id u) ::
       polls ++ [EvLog (LogCheckError (name u) e)])
| cycle_started gb polls s' evs :
    observes u w gb "Stopped" →
    Qlt_bool gb (limit_of u) = true →
    Qle_bool MAX_START_FAILURES (get_start_failures s (instance_id u)) = false →
    polled (client_of u) (instance_id u) (name u) 0 12 (Done true) polls →
    notified (instance_id u) "resumed" None TitleResumed
      {| msg_name := name u; msg_gb := gb; msg_failures := None |} green
      (clear_no_resource (reset_start_failures s (instance_id u)) (instance_id u)) s' evs →
    cycle u tg s w s'
      (EvTraffic (client_of u) :: EvDescribe (client_of u) (instance_id u) ::
       EvLog (LogTryStart (name u)) :: EvStart (client_of u) (instance_id u) ::
       polls ++ EvLog (LogResumed (name u)) :: evs)
| cycle_timed_out gb polls s' evs :
    observes u w gb "Stopped" →
    Qlt_bool gb (limit_of u) = true →
    Qle_bool MAX_START_FAILURES (get_start_failures s (instance_id u)) = false →
    polled (client_of u) (instance_id u) (name u) 0 12 (Done false) polls →
    notified (instance_id u) "start_failed" None TitleStartFailed
      {| msg_name := name u; msg_gb := gb;
         msg_failures := Some (get_start_failures s (instance_id u) + 1)%Q |} red
      (set_start_failures s (instance_id u) (get_start_failures s (instance_id u) + 1)%Q)
      s' evs →
    cycle u tg s w s'
      (EvTraffic (client_of u) :: EvDescribe (client_of u) (instance_id u) ::
       EvLog (LogTryStart (name u)) :: EvStart (client_of u) (instance_id u) ::
       polls ++
       EvLog (LogStartTimeout (name u) (get_start_failures s (instance_id u) + 1)%Q) :: evs)
| cycle_running gb :
    observes u w gb "Running" →
    Qlt_bool gb (limit_of u) = true →
    cycle u tg s w (reset_start_failures s (instance_id u))
      [EvTraffic (client_of u); EvDescribe (client_of u) (instance_id u);
       EvLog (LogRunning (name u))]
| cycle_intermediate gb status :
    observes u w gb status →
    Qlt_bool gb (limit_of u) = true →
    status ≠ "Stopped" → status ≠ "Running" →
    cycle u tg s w s
      [EvTraffic (client_of u); EvDescribe (client_of u) (instance_id u);
       EvLog (LogIntermediate (name u) status)]
| cycle_stop_error gb e :
    observes u w gb "Running" →
    Qlt_bool gb (limit_of u) = false →
    cycle u tg s w s
      [EvTraffic (client_of u); EvDescribe (client_of u) (instance_id u);
       EvLog (LogStopping (name u)); EvStop (client_of u) (instance_id u);
       EvLog (LogCheckError (name u) e)]
| cycle_stopped gb s' evs :
    observes u w gb "Running" →
    Qlt_bool gb (limit_of u) = false →
    notified (instance_id u) "overlimit" (Some OVERLIMIT_COOLDOWN) TitleOverlimitStop
      {| msg_name := name u; msg_gb := gb; msg_failures := None |} red s s' evs →
    cycle u tg s w s'
      (EvTraffic (client_of u) :: EvDescribe (client_of u) (instance_id u) ::
       EvLog (LogStopping (name u)) :: EvStop (client_of u) (instance_id u) :: evs)
| cycle_still_over gb status s' evs :
    observes u w gb status →
    Qlt_bool gb (limit_of u) = false →
    status ≠ "Running" →
    notified (instance_id u) "overlimit" (Some OVERLIMIT_COOLDOWN) TitleOverlimitStill
      {| msg_name := name u; msg_gb := gb; msg_failures := None |} red s s' evs →
    cycle u tg s w s'
      (EvTraffic (client_of u) :: EvDescribe (client_of u) (instance_id u) ::
       EvLog (LogStillStopped (name u)) :: evs).

(** The cycles of a list of targets, one after the other on the same dict
    (the loop of [main]). *)
Inductive cycles (tg : TgConf) : State → W → list User → State → list event → Prop :=
| cycles_nil s w : cycles tg s w [] s []
| cycles_cons s w u us s1 w1 evs1 s2 evs2 :
    cycle u tg s w s1 evs1 →
    cycles tg s1 w1 us s2 evs2 →
    cycles tg s w (u :: us) s2 (evs1 ++ evs2).

(** The dict [main] starts from (lines 50-57). *)
Definition initial_state (w : W) : State :=
  match state_file w with
  | Content state => state
  | _ => ∅
  end.

(** The run [r] of the rest of a cycle, seen after the two queries that
    open the cycle of [u]. *)
Definition after_queries (u : User) (r : run W unit) : run W unit :=
  Run (result r) (store r) (world r)
    (EvTraffic (client_of u) :: EvDescribe (client_of u) (instance_id u) :: events r).

(** [c] inside the [try ... except Exception] of [check_and_act]. *)
Definition guarded (u : User) (c : M W unit) : M W unit :=
  try_except c (fun e => log (LogCheckError (name u) e)).

(** All readings of the clock among [evs] fall in the window of length
    [OVERLIMIT_COOLDOWN] that opens at [T]. *)
Definition within_window (T : Q) (evs : list event) : Prop :=
  ∀ t, EvTime t ∈ evs → (T <= t)%Q ∧ (t < T + OVERLIMIT_COOLDOWN)%Q.

End Outcomes.

(** [user] with ['traffic_limit'] set to [q]. *)
Definition with_traffic_limit (q : Q) (user : User) : User :=
  {| instance_id := instance_id user; name := name user; ak := ak user; sk := sk user;
     region := region user; traffic_limit := Some q |}.

(** ** Sample inputs *)

Definition alice : User :=
  {| instance_id := "i-alice"; name := "alice"; ak := "AK"; sk := "SK";
     region := "cn-hongkong"; traffic_limit := None |}.

(** An entry of [users] without ['name']. *)
Definition nameless : Entry :=
  {| entry_instance_id := Some "i-bob"; entry_name := None; entry_ak := Some "AK";
     entry_sk := Some "SK"; entry_region := Some "cn-hongkong";
     entry_traffic_limit := None |}.

Definition GiB : Z := 1024 ^ 3.

(** An environment in which the traffic query answers [tr], the status
    queries answer [sts] in order, every command succeeds, the clock shows
    [t] and moves by [d] at every reading, and the configuration file is
    [cfg]. *)
Definition world_of (t d : Q) (tr : answer (list (option Z))) (sts : list (option string))
    (cfg : file Settings) : Scripted :=
  {| clock := t; tick := d; traffic := tr;
     statuses := map (fun st => Answer [st]) sts;
     start_answer := Answer tt; stop_answer := Answer tt; post_answer := Answer tt;
     config_json := cfg; state_json := Missing; write_answer := Answer tt |}.

(** The same with the clock at a standstill and a configuration all of
    whose entries have their five keys. *)
Definition world_with (t : Q) (tr : answer (list (option Z))) (sts : list (option string))
    (cfg : file Config) : Scripted :=
  world_of t 0 tr sts
    match cfg with
    | Missing => Missing
    | Unreadable e => Unreadable e
    | Content config => Content (settings_of config)
    end.

(** The same with [gb] GiB used and a configuration that lists [alice]. *)
Definition scene (t : Q) (gb : Z) (sts : list (option string)) : Scripted :=
  world_with t (Answer [Some (gb * GiB)]) sts
    (Content {| users := Some [alice]; telegram := None |}).

(** A state cache with one entry, for [alice]. *)
Definition cache (l : list (string * Q)) : State :=
  {[ "i-alice" := list_to_map l ]}.

(** ** Lemmas on the blocks of the script *)

Lemma count_app p (a b : list event) : count p (a ++ b) = (count p a + count p b)%nat.
Proof. induction a as [|e a IH]; simpl; [reflexivity|]. rewrite IH. lia. Qed.

Arguments send_tg_alert : simpl never.
Arguments notify : simpl never.
Arguments wait_running : simpl never.

(** Runs the primitive steps at the head of the goal. *)
Ltac exec :=
  unfold time_sleep, time_time, get_instance_status, log, bind, emit, perform,
    request, ret, raise, sys_exit, get_store, modify, try_except;
  simpl.

Section Blocks.
Context {W : Type} {E : Environment W}.

Lemma send_tg_alert_run tg t m c s (w : W) :
  ∃ posts w',
    send_tg_alert tg t m c s w = Run (Done tt) s w' (EvAlert t m c :: posts) ∧
    count is_delivery posts = length posts.
Proof.
  unfold send_tg_alert. exec.
  destruct (negb (truthy (bot_token tg)) || negb (truthy (chat_id tg))); simpl.
  - exists [], w. split; reflexivity.
  - destruct (requests_post _ _ t m w) as [[[]|e] w'] eqn:Hpost; simpl.
    + eexists [_], w'. split; reflexivity.
    + eexists [_; _], w'. split; reflexivity.
Qed.

Lemma notify_run tg iid key cooldown t m c s (w : W) :
  let r := notify tg iid key cooldown t m c s w in
  result r = Done tt ∧ notified iid key cooldown t m c s (store r) (events r).
Proof.
  unfold notify, can_notify_now, mark_notified_now. exec.
  destruct (wall_clock w) as [now w1] eqn:Hclock. simpl.
  destruct (can_notify now s iid key cooldown) eqn:Hdue; simpl.
  - destruct (send_tg_alert_run tg t m c s w1) as (posts & w2 & Hrun & Hposts).
    rewrite Hrun. simpl.
    destruct (wall_clock w2) as [now' w3]. simpl.
    split; [reflexivity|]. by apply notified_sent.
  - split; [reflexivity|]. by apply notified_quiet.
Qed.

Lemma wait_running_step client iid name waited :
  wait_running client iid name waited =
  if Z_lt_dec waited START_WAIT_TIMEOUT then
    time_sleep START_POLL_INTERVAL;;
    real_status ← get_instance_status client iid;
    log (LogWaiting name real_status (waited + START_POLL_INTERVAL));;
    if decide (real_status = Some "Running") then ret true
    else wait_running client iid name (waited + START_POLL_INTERVAL)
  else ret false.
Proof.
  rewrite wait_running_unfold_eq. unfold wait_running_unfold.
  destruct (Z_lt_dec waited START_WAIT_TIMEOUT); reflexivity.
Qed.

Lemma wait_running_run client iid name (k : nat) s (w : W) :
  let waited := START_WAIT_TIMEOUT - START_POLL_INTERVAL * Z.of_nat k in
  let r := wait_running client iid name waited s w in
  store r = s ∧ polled client iid name waited k (result r) (events r).
Proof.
  revert s w. induction k as [|k IH]; intros s w waited r; subst r.
  - rewrite wait_running_step.
    destruct (Z_lt_dec waited START_WAIT_TIMEOUT) as [Hlt|_].
    { exfalso. subst waited. unfold START_WAIT_TIMEOUT, START_POLL_INTERVAL in Hlt. lia. }
    split; [reflexivity|]. by apply (polled_timeout _ _ _ _ _ []); [apply not_elem_of_nil|].
  - rewrite wait_running_step.
    destruct (Z_lt_dec waited START_WAIT_TIMEOUT) as [_|Hge].
    2:{ exfalso. subst waited. unfold START_WAIT_TIMEOUT, START_POLL_INTERVAL in Hge. lia. }
    assert (Hw : START_WAIT_TIMEOUT - START_POLL_INTERVAL * Z.of_nat k
                 = waited + START_POLL_INTERVAL)
      by (subst waited; unfold START_WAIT_TIMEOUT, START_POLL_INTERVAL; lia).
    simpl in IH. rewrite Hw in IH. clear Hw.
    exec.
    destruct (describe_instances client iid (suspend START_POLL_INTERVAL w))
      as [[instances|e] w2]; simpl.
    + set (st := first_status instances).
      destruct (decide (st = Some "Running")) as [->|Hne]; simpl.
      * split; [reflexivity|].
        apply (polled_running _ _ _ _ _ []); [apply not_elem_of_nil | simpl; lia].
      * destruct (IH s w2) as [Hs Hp].
        destruct (wait_running client iid name (waited + START_POLL_INTERVAL) s w2)
          as [res s' w' evs].
        simpl in Hs, Hp. subst s'.
        inversion Hp as [seen Hn Hl|seen Hn Hl|seen e Hn Hl]; subst; simpl; split;
          try reflexivity.
        -- apply (polled_running _ _ _ _ _ (st :: seen));
             [by apply not_elem_of_cons | simpl; lia].
        -- apply (polled_timeout _ _ _ _ _ (st :: seen));
             [by apply not_elem_of_cons | reflexivity].
        -- apply (polled_error _ _ _ _ _ (st :: seen));
             [by apply not_elem_of_cons | simpl; lia].
    + split; [reflexivity|].
      apply (polled_error _ _ _ _ _ []); [apply not_elem_of_nil | simpl; lia].
Qed.

(** Replaces the [notify] block at the head of the goal by what it leaves. *)
Ltac use_notify :=
  match goal with
  | |- context [notify ?tg ?i ?k ?cd ?t ?m ?c ?s ?w] =>
      let Hres := fresh "Hres" in
      let Hn := fresh "Hn" in
      destruct (notify_run tg i k cd t m c s w) as [Hres Hn];
      destruct (notify tg i k cd t m c s w) as [? ? ? ?];
      simpl in Hres, Hn; rewrite Hres; simpl
  end.

Lemma check_and_act_run u tg s (w : W) :
  let r := check_and_act u tg s w in
  result r = Done tt ∧ cycle u tg s w (store r) (events r).
Proof.
  unfold check_and_act, cycle_body. exec.
  destruct (list_cdt_internet_traffic (client_of u) w) as [[details|e] w1] eqn:Htraffic;
    simpl; [|split; [reflexivity | by eapply cycle_traffic_error]].
  unfold true_divide.
  destruct (fits details) eqn:Hfits; exec;
    [|split; [reflexivity | by eapply cycle_overflow]].
  destruct (describe_instances (client_of u) (instance_id u) w1) as [[instances|e] w2]
    eqn:Hdescribe; simpl; [|split; [reflexivity | by eapply cycle_status_error]].
  destruct (first_status instances) as [status|] eqn:Hstatus; simpl;
    [|split; [reflexivity | by eapply cycle_not_found]].
  assert (Hobs : observes u w (gigabytes details) status)
    by (exists details, w1, instances, w2; done).
  destruct (Qlt_bool (gigabytes details) (limit_of u)) eqn:Hlimit.
  - unfold safe_branch.
    destruct (decide (status = "Stopped")) as [->|Hstopped].
    + exec.
      destruct (Qle_bool MAX_START_FAILURES (get_start_failures s (instance_id u)))
        eqn:Hgate.
      * unfold resource_exhausted. exec. use_notify.
        split; [reflexivity | by eapply cycle_exhausted].
      * exec.
        destruct (start_instance (client_of u) (instance_id u) w2) as [[[]|e] w3]; simpl;
          [|split; [reflexivity | by eapply cycle_start_error]].
        destruct (wait_running_run (client_of u) (instance_id u) (name u) 12 s w3)
          as [Hs Hp].
        change (START_WAIT_TIMEOUT - START_POLL_INTERVAL * Z.of_nat 12) with 0 in Hs, Hp.
        destruct (wait_running (client_of u) (instance_id u) (name u) 0 s w3)
          as [res s3 w4 polls]. simpl in Hs, Hp. subst s3.
        destruct Hp as [seen Hn Hl|seen Hn Hl|seen e Hn Hl]; simpl.
        -- unfold start_confirmed. exec. use_notify.
           split; [reflexivity|].
           eapply cycle_started; try done. by apply polled_running.
        -- unfold start_timed_out. exec. use_notify.
           split; [reflexivity|].
           eapply cycle_timed_out; try done. by apply polled_timeout.
        -- split; [reflexivity|].
           eapply cycle_poll_error; try done. by apply polled_error.
    + destruct (decide (status = "Running")) as [->|Hrunning]; exec.
      * split; [reflexivity | by eapply cycle_running].
      * split; [reflexivity | by eapply cycle_intermediate].
  - unfold overlimit_branch.
    destruct (decide (status = "Running")) as [->|Hrunning]; exec.
    + destruct (stop_instance (client_of u) (instance_id u) w2) as [[[]|e] w3]; simpl;
        [|split; [reflexivity | by eapply cycle_stop_error]].
      use_notify. split; [reflexivity | by eapply cycle_stopped].
    + use_notify. split; [reflexivity | by eapply cycle_still_over].
Qed.

Lemma for_each_run tg us s (w : W) :
  let r := for_each us (fun u => check_and_act u tg) s w in
  result r = Done tt ∧ cycles tg s w us (store r) (events r).
Proof.
  revert s w. induction us as [|u us IH]; intros s w; simpl.
  - split; [reflexivity | apply cycles_nil].
  - unfold bind.
    destruct (check_and_act_run u tg s w) as [Hres Hcycle].
    destruct (check_and_act u tg s w) as [res s1 w1 evs1]. simpl in Hres, Hcycle.
    subst res.
    destruct (IH s1 w1) as [Hres Hcycles].
    destruct (for_each us (λ u0, check_and_act u0 tg) s1 w1) as [res s2 w2 evs2].
    simpl in Hres, Hcycles. subst res. simpl.
    split; [reflexivity | by eapply cycles_cons].
Qed.

Lemma check_and_act_entry_of u tg :
  check_and_act_entry (entry_of u) tg = check_and_act (W := W) u tg.
Proof. by destruct u. Qed.

Lemma for_each_entries tg us s (w : W) :
  for_each (map entry_of us) (fun e => check_and_act_entry e tg) s w =
  for_each us (fun u => check_and_act u tg) s w.
Proof.
  revert s w. induction us as [|u us IH]; intros s w; simpl; [reflexivity|].
  unfold bind. rewrite check_and_act_entry_of.
  destruct (check_and_act u tg s w) as [[[]|e|n] s1 w1 evs1]; [|reflexivity..].
  by rewrite IH.
Qed.

(** [main] once the configuration is loaded: the loop over the entries,
    then the save when the loop returned. *)
Lemma main_loaded (settings : Settings) s0 (w : W) :
  config_file w = Content settings →
  let loop := for_each (default [] (user_entries settings))
                (fun e => check_and_act_entry e
                            (default no_telegram (telegram_entry settings)))
                (initial_state w) w in
  let saved := write_state_file (store loop) (world loop) in
  main s0 w =
    match result loop with
    | Done _ =>
        Run (Done tt) (store loop) saved.2
          (EvLoadConfig :: EvLoadState :: events loop ++
           EvSave (store loop) :: save_tail saved.1)
    | Raised e =>
        Run (Raised e) (store loop) (world loop)
          (EvLoadConfig :: EvLoadState :: events loop)
    | Exited n =>
        Run (Exited n) (store loop) (world loop)
          (EvLoadConfig :: EvLoadState :: events loop)
    end.
Proof.
  intros Hconfig loop saved. subst saved.
  unfold main, load_config, load_state, save_state. exec. rewrite Hconfig. simpl.
  fold (initial_state w). fold loop.
  destruct loop as [[[]|e|n] s1 w1 evs1]; simpl; [|reflexivity..].
  by destruct (write_state_file s1 w1) as [[[]|e] w2].
Qed.

Lemma main_run (config : Config) s0 (w : W) :
  config_file w = Content config →
  let loop := for_each (default [] (users config))
                (fun u => check_and_act u (default no_telegram (telegram config)))
                (initial_state w) w in
  let saved := write_state_file (store loop) (world loop) in
  main s0 w = Run (Done tt) (store loop) saved.2
                (EvLoadConfig :: EvLoadState :: events loop ++
                 EvSave (store loop) :: save_tail saved.1).
Proof.
  intros Hconfig loop saved.
  destruct (for_each_run (default no_telegram (telegram config))
              (default [] (users config)) (initial_state w) w) as [Hres _].
  fold loop in Hres.
  assert (Hloop : for_each (default [] (user_entries config))
                     (fun e => check_and_act_entry e
                                 (default no_telegram (telegram_entry config)))
                     (initial_state w) w = loop).
  { subst loop. unfold settings_of. simpl.
    destruct (users config); simpl; [apply for_each_entries | reflexivity]. }
  pose proof (main_loaded config s0 w Hconfig) as Hmain. cbv zeta in Hmain.
  rewrite Hloop, Hres in Hmain. exact Hmain.
Qed.

End Blocks.

(** ** Properties of the decision cycle *)

Lemma Qlt_bool_true a b : Qlt_bool a b = true ↔ (a < b)%Q.
Proof.
  unfold Qlt_bool. rewrite negb_true_iff. split.
  - intros H. apply Qnot_le_lt. intros Hle. apply Qle_bool_iff in Hle. congruence.
  - intros H. destruct (Qle_bool b a) eqn:Hle; [|reflexivity].
    apply Qle_bool_iff in Hle. exfalso. by apply (Qlt_not_le a b).
Qed.

Lemma Qlt_bool_false a b : Qlt_bool a b = false ↔ (b <= a)%Q.
Proof.
  unfold Qlt_bool. rewrite negb_false_iff. apply Qle_bool_iff.
Qed.

Lemma Qle_bool_false a b : Qle_bool a b = false ↔ (b < a)%Q.
Proof.
  split.
  - intros H. apply Qnot_le_lt. intros Hle. apply Qle_bool_iff in Hle. congruence.
  - intros H. destruct (Qle_bool a b) eqn:Hle; [|reflexivity].
    apply Qle_bool_iff in Hle. exfalso. by apply (Qlt_not_le b a).
Qed.

(** *** The state cache *)

(** *** The division of line 128 *)

Lemma round_half_even_ge n d : n / d <= round_half_even n d.
Proof.
  unfold round_half_even.
  destruct (Z.ltb (2 * (n mod d)) d); [lia|].
  destruct (Z.ltb d (2 * (n mod d))); [lia|].
  destruct (Z.even (n / d)); lia.
Qed.

(** A byte count of at most 53 bits is a double. *)
Lemma round53_exact n : Z.abs n < 2 ^ 53 → round53 n = n.
Proof.
  intros Hn. unfold round53.
  destruct (Z.leb_spec (Z.log2 (Z.abs n) + 1 - 53) 0) as [_|Hshift]; [reflexivity|].
  exfalso.
  destruct (Z.eq_dec (Z.abs n) 0) as [H0|H0].
  - rewrite H0 in Hshift. simpl in Hshift. lia.
  - apply Z.log2_lt_pow2 in Hn; lia.
Qed.

Lemma round53_opp n : round53 (- n) = - round53 n.
Proof.
  unfold round53. rewrite Z.abs_opp, Z.sgn_opp.
  destruct (Z.leb _ 0); [reflexivity | ring].
Qed.

(** Rounding does not take a count of 2^53 or more below 2^53. *)
Lemma round53_large n : 2 ^ 53 <= n → 2 ^ 53 <= round53 n.
Proof.
  intros Hn.
  assert (Hpos : 0 < n) by (pose proof (Z.pow_pos_nonneg 2 53); lia).
  assert (Hlog : 53 <= Z.log2 n) by (by apply Z.log2_le_pow2).
  unfold round53. rewrite Z.abs_eq, Z.sgn_pos by lia.
  destruct (Z.leb_spec (Z.log2 n + 1 - 53) 0) as [H|_]; [lia|].
  set (shift := Z.log2 n + 1 - 53).
  assert (Hshift : 1 <= shift) by (subst shift; lia).
  assert (Hd : 0 < 2 ^ shift) by (apply Z.pow_pos_nonneg; lia).
  assert (Hq : 2 ^ 52 <= n / 2 ^ shift).
  { apply Z.div_le_lower_bound; [exact Hd|].
    rewrite Z.mul_comm, <- Z.pow_add_r by lia.
    replace (52 + shift) with (Z.log2 n) by (subst shift; lia).
    apply Z.log2_spec. exact Hpos. }
  pose proof (round_half_even_ge n (2 ^ shift)) as Hr.
  assert (H2 : 2 ^ 1 <= 2 ^ shift) by (apply Z.pow_le_mono_r; lia).
  change (2 ^ 53) with (2 ^ 52 * 2 ^ 1).
  rewrite Z.mul_1_l. apply Z.mul_le_mono_nonneg; lia.
Qed.

Lemma round53_small n : n <= - 2 ^ 53 → round53 n <= - 2 ^ 53.
Proof.
  intros Hn. pose proof (round53_large (- n)) as H. rewrite round53_opp in H. lia.
Qed.

(** Rounding keeps a count on its side of a threshold between 0 and 2^53. *)
Lemma round53_threshold n (t : Q) :
  (0 <= t)%Q → (t <= inject_Z (2 ^ 53))%Q →
  ((inject_Z (round53 n) < t)%Q ↔ (inject_Z n < t)%Q).
Proof.
  intros H0 Ht.
  destruct (Z_lt_le_dec (Z.abs n) (2 ^ 53)) as [Hs|Hl].
  - by rewrite round53_exact.
  - destruct (Z_le_gt_dec 0 n) as [Hp|Hm].
    + assert (Hn : 2 ^ 53 <= n) by lia.
      pose proof (round53_large n Hn) as Hr.
      rewrite Zle_Qle in Hn, Hr. split; intros H; exfalso; lra.
    + assert (Hn : n <= - 2 ^ 53) by lia.
      pose proof (round53_small n Hn) as Hr.
      rewrite Zle_Qle in Hn, Hr.
      change (inject_Z (- 2 ^ 53)) with (- inject_Z (2 ^ 53))%Q in Hn, Hr.
      assert (0 < inject_Z (2 ^ 53))%Q by reflexivity.
      split; intros _; lra.
Qed.

Lemma Qdiv_lt_iff a b : (a / inject_Z (1024 ^ 3) < b ↔ a < b * inject_Z (1024 ^ 3))%Q.
Proof.
  change (inject_Z (1024 ^ 3)) with 1073741824%Q.
  assert (Ha : (a == a / 1073741824 * 1073741824)%Q) by (field; discriminate).
  revert Ha. generalize (a / 1073741824)%Q. intros x Ha. split; intros H; lra.
Qed.

(** Against a quota between 0 and 2^23 GB the rounded traffic compares as
    the exact one does. *)
Lemma gigabytes_lt details (quota : Q) :
  (0 <= quota)%Q → (quota <= inject_Z (2 ^ 23))%Q →
  ((gigabytes details < quota)%Q ↔
   (inject_Z (total_bytes details) < quota * inject_Z (1024 ^ 3))%Q).
Proof.
  intros H0 Hq. unfold gigabytes. rewrite Qdiv_lt_iff.
  apply round53_threshold.
  - change (inject_Z (1024 ^ 3)) with 1073741824%Q. lra.
  - change (inject_Z (1024 ^ 3)) with 1073741824%Q.
    change (inject_Z (2 ^ 53)) with 9007199254740992%Q.
    change (inject_Z (2 ^ 23)) with 8388608%Q in Hq. lra.
Qed.

Lemma gigabytes_lt_whole details (limit_gb : Z) :
  0 <= limit_gb <= 2 ^ 23 →
  (Qlt_bool (gigabytes details) (inject_Z limit_gb) = true ↔
   total_bytes details < limit_gb * 1024 ^ 3).
Proof.
  intros [H0 Hq].
  assert (H0' : (0 <= inject_Z limit_gb)%Q)
    by (change 0%Q with (inject_Z 0); by rewrite <- Zle_Qle).
  assert (Hq' : (inject_Z limit_gb <= inject_Z (2 ^ 23))%Q) by (by rewrite <- Zle_Qle).
  rewrite Qlt_bool_true, (gigabytes_lt _ _ H0' Hq').
  by rewrite <- inject_Z_mult, <- Zlt_Qlt.
Qed.

Lemma fits_small details : Z.abs (total_bytes details) < 2 ^ 53 → fits details = true.
Proof.
  intros H. unfold fits. rewrite round53_exact by done.
  apply Z.ltb_lt.
  assert (2 ^ 53 < 2 ^ (1024 + 30)) by (apply Z.pow_lt_mono_r; lia). lia.
Qed.

Lemma stored_setdefault_with f i s j k :
  stored (setdefault_with f i s) j k =
  if decide (i = j) then f (default ∅ (s !! i)) !! k else stored s j k.
Proof.
  unfold stored, setdefault_with. destruct (decide (i = j)) as [->|Hne].
  - by rewrite lookup_insert_eq.
  - by rewrite lookup_insert_ne.
Qed.

Lemma lookup_setdefault_with_ne f i (s : State) j :
  i ≠ j → setdefault_with f i s !! j = s !! j.
Proof. intros Hne. unfold setdefault_with. by rewrite lookup_insert_ne. Qed.

Lemma stored_insert v i k (s : State) j k' :
  stored (setdefault_with (<[k := v]>) i s) j k' =
  if decide (i = j ∧ k = k') then Some v else stored s j k'.
Proof.
  rewrite stored_setdefault_with. destruct (decide (i = j)) as [->|Hne].
  - destruct (decide (k = k')) as [->|Hk].
    + rewrite lookup_insert_eq. by rewrite decide_True.
    + rewrite lookup_insert_ne by done. by rewrite decide_False by (intros []; done).
  - by rewrite decide_False by (intros []; done).
Qed.

Lemma stored_delete i k (s : State) j k' :
  stored (setdefault_with (delete k) i s) j k' =
  if decide (i = j ∧ k = k') then None else stored s j k'.
Proof.
  rewrite stored_setdefault_with. destruct (decide (i = j)) as [->|Hne].
  - destruct (decide (k = k')) as [->|Hk].
    + rewrite lookup_delete_eq. by rewrite decide_True.
    + rewrite lookup_delete_ne by done. by rewrite decide_False by (intros []; done).
  - by rewrite decide_False by (intros []; done).
Qed.

Lemma stored_mark_notified now s i k j k' :
  stored (mark_notified now s i k) j k' =
  if decide (i = j ∧ k = k') then Some now else stored s j k'.
Proof. apply stored_insert. Qed.

Lemma stored_set_start_failures s i n j k' :
  stored (set_start_failures s i n) j k' =
  if decide (i = j ∧ "start_failures" = k') then Some n else stored s j k'.
Proof. apply stored_insert. Qed.

Lemma stored_reset_start_failures s i j k' :
  stored (reset_start_failures s i) j k' =
  if decide (i = j ∧ "start_failures" = k') then Some 0%Q else stored s j k'.
Proof. apply stored_insert. Qed.

Lemma stored_clear_no_resource s i j k' :
  stored (clear_no_resource s i) j k' =
  if decide (i = j ∧ "no_resource" = k') then None else stored s j k'.
Proof. apply stored_delete. Qed.

Lemma notified_stored iid key cooldown t m c s s' evs j k :
  notified iid key cooldown t m c s s' evs →
  j ≠ iid ∨ k ≠ key →
  stored s' j k = stored s j k.
Proof.
  intros [now Hq|now posts now' Hd Hposts] Hne; [reflexivity|].
  rewrite stored_mark_notified.
  apply decide_False. intros [-> ->]. by destruct Hne.
Qed.

Lemma notified_lookup iid key cooldown t m c (s s' : State) evs j :
  notified iid key cooldown t m c s s' evs →
  j ≠ iid →
  s' !! j = s !! j.
Proof.
  intros [now Hq|now posts now' Hd Hposts] Hne; [reflexivity|].
  unfold mark_notified. by rewrite lookup_setdefault_with_ne.
Qed.

(** *** The polling loop *)

Lemma rounds_app client iid name waited seen seen' :
  rounds client iid name waited (seen ++ seen') =
  rounds client iid name waited seen ++
  rounds client iid name (waited + START_POLL_INTERVAL * Z.of_nat (length seen)) seen'.
Proof.
  revert waited. induction seen as [|st seen IH]; intros waited.
  - simpl. f_equal. unfold START_POLL_INTERVAL. lia.
  - cbn [rounds length app]. rewrite IH. do 3 f_equal.
    replace (waited + START_POLL_INTERVAL * Z.of_nat (S (length seen)))
      with (waited + START_POLL_INTERVAL + START_POLL_INTERVAL * Z.of_nat (length seen));
      [reflexivity|].
    unfold START_POLL_INTERVAL. lia.
Qed.

Lemma running_seen_rounds client iid name waited seen :
  Some "Running" ∉ seen →
  count is_running_seen (rounds client iid name waited seen) = 0%nat.
Proof.
  revert waited. induction seen as [|st seen IH]; intros waited Hn; simpl; [reflexivity|].
  apply not_elem_of_cons in Hn as [Hst Hn]. rewrite IH by done.
  destruct st as [st|]; [|reflexivity].
  rewrite bool_decide_eq_false_2; [reflexivity | congruence].
Qed.

Lemma running_seen_polled client iid name waited k res evs :
  polled client iid name waited k res evs →
  count is_running_seen evs =
  match res with Done true => 1%nat | _ => 0%nat end.
Proof.
  intros [seen Hn _|seen Hn _|seen e Hn _].
  - by rewrite rounds_app, count_app, running_seen_rounds.
  - by rewrite running_seen_rounds.
  - by rewrite count_app, running_seen_rounds.
Qed.

Section Decision.
Context {W : Type} {E : Environment W}.

Lemma observes_unique u (w : W) gb status gb' status' :
  observes u w gb status → observes u w gb' status' → gb' = gb ∧ status' = status.
Proof.
  intros (d & w1 & i & w2 & Ht & _ & Hd & Hs & ->)
         (d' & w1' & i' & w2' & Ht' & _ & Hd' & Hs' & ->).
  rewrite Ht in Ht'. injection Ht' as <- <-.
  rewrite Hd in Hd'. injection Hd' as <- <-.
  rewrite Hs in Hs'. by injection Hs' as <-.
Qed.

Lemma observes_traffic_error u (w : W) gb status e w1 :
  observes u w gb status →
  list_cdt_internet_traffic (client_of u) w = (Failure e, w1) → False.
Proof. intros (d & w1' & i & w2 & Ht & _) H. rewrite Ht in H. discriminate. Qed.

Lemma observes_overflow u (w : W) gb status details w1 :
  observes u w gb status →
  list_cdt_internet_traffic (client_of u) w = (Answer details, w1) →
  fits details = false → False.
Proof.
  intros (d & w1' & i & w2 & Ht & Hf & _) H H'.
  rewrite Ht in H. injection H as <- <-. congruence.
Qed.

Lemma observes_status_error u (w : W) gb status details w1 e w2 :
  observes u w gb status →
  list_cdt_internet_traffic (client_of u) w = (Answer details, w1) →
  describe_instances (client_of u) (instance_id u) w1 = (Failure e, w2) → False.
Proof.
  intros (d & w1' & i & w2' & Ht & _ & Hd & _) H H'.
  rewrite Ht in H. injection H as <- <-. rewrite Hd in H'. discriminate.
Qed.

Lemma observes_not_found u (w : W) gb status details w1 instances w2 :
  observes u w gb status →
  list_cdt_internet_traffic (client_of u) w = (Answer details, w1) →
  describe_instances (client_of u) (instance_id u) w1 = (Answer instances, w2) →
  first_status instances = None → False.
Proof.
  intros (d & w1' & i & w2' & Ht & _ & Hd & Hs & _) H H' H''.
  rewrite Ht in H. injection H as <- <-. rewrite Hd in H'. injection H' as <- <-.
  rewrite Hs in H''. discriminate.
Qed.

Lemma count_rounds p client iid name waited seen :
  p (EvSleep START_POLL_INTERVAL) = false →
  p (EvDescribe client iid) = false →
  (∀ st k, p (EvLog (LogWaiting name st k)) = false) →
  count p (rounds client iid name waited seen) = 0%nat.
Proof.
  intros Hsleep Hpoll Hlog. revert waited.
  induction seen as [|st seen IH]; intros waited; simpl; [reflexivity|].
  by rewrite Hsleep, Hpoll, Hlog, IH.
Qed.

Lemma count_polled p client iid name waited k res evs :
  polled client iid name waited k res evs →
  p (EvSleep START_POLL_INTERVAL) = false →
  p (EvDescribe client iid) = false →
  (∀ st k, p (EvLog (LogWaiting name st k)) = false) →
  count p evs = 0%nat.
Proof.
  intros [seen _ _|seen _ _|seen e _ _] Hsleep Hpoll Hlog;
    rewrite ?count_app, !count_rounds by done; simpl; by rewrite ?Hsleep, ?Hpoll.
Qed.

Lemma count_delivery p posts :
  (∀ e, is_delivery e = true → p e = false) →
  count is_delivery posts = length posts →
  count p posts = 0%nat.
Proof.
  intros Hp. induction posts as [|e posts IH]; simpl; [reflexivity|].
  assert (Hle : ∀ l, (count is_delivery l ≤ length l)%nat).
  { induction l as [|x l IHl]; simpl; [lia|]. destruct (is_delivery x); lia. }
  destruct (is_delivery e) eqn:He; intros H.
  - rewrite (Hp e He), IH; [reflexivity | lia].
  - specialize (Hle posts). lia.
Qed.

Lemma count_notified p iid key cooldown t m c s s' evs :
  notified iid key cooldown t m c s s' evs →
  (∀ now, p (EvTime now) = false) →
  (∀ e, is_delivery e = true → p e = false) →
  p (EvAlert t m c) = false →
  count p evs = 0%nat.
Proof.
  intros [now Hq|now posts now' Hd Hposts] Htime Hdel Halert; simpl.
  - by rewrite Htime.
  - by rewrite !Htime, Halert, count_app, (count_delivery p posts); simpl; rewrite ?Htime.
Qed.

Arguments safe_branch : simpl never.
Arguments overlimit_branch : simpl never.

(** Side conditions on a predicate on events. *)
Ltac on_events :=
  first
    [ done
    | let e := fresh "e" in
      intros e; destruct e as [| | | | | | | | [] | | |]; done ].

(** Rewrites the counts of events of the blocks of a cycle. *)
Ltac counts :=
  simpl; rewrite ?count_app; simpl;
  repeat match goal with
    | H : polled _ _ _ _ _ _ ?evs |- context [count is_running_seen ?evs] =>
        rewrite (running_seen_polled _ _ _ _ _ _ _ H)
    | H : polled _ _ _ _ _ _ ?evs |- context [count ?p ?evs] =>
        rewrite (count_polled p _ _ _ _ _ _ _ H) by on_events
    | H : notified _ _ _ _ _ _ _ _ ?evs |- context [count ?p ?evs] =>
        rewrite (count_notified p _ _ _ _ _ _ _ _ _ H) by on_events
    end;
  simpl.

(** Reads a key of the dict left by a [notify] block on another key. *)
Ltac unmark :=
  match goal with
  | Hn : notified _ _ _ _ _ _ _ ?s1 _ |- context [stored ?s1 ?j ?k] =>
      rewrite (notified_stored _ _ _ _ _ _ _ _ _ j k Hn) by (right; done)
  end.

(** Case analysis on the way taken by a cycle, the observations of which
    are [Hobs] when given. *)
Ltac same_observation Hobs :=
  try (exfalso;
       by eauto using observes_traffic_error, observes_overflow, observes_status_error,
            observes_not_found);
  repeat match goal with
    | H : observes _ _ _ _ |- _ =>
        first
          [ constr_eq H Hobs; fail 1
          | let Hs := fresh "Hs" in
            destruct (observes_unique _ _ _ _ _ _ Hobs H) as [-> Hs];
            clear H; try (subst; try discriminate Hs) ]
    end.

Lemma check_and_act_branch u tg s (w w1 w2 : W) details instances status :
  list_cdt_internet_traffic (client_of u) w = (Answer details, w1) →
  fits details = true →
  describe_instances (client_of u) (instance_id u) w1 = (Answer instances, w2) →
  first_status instances = Some status →
  check_and_act u tg s w =
  after_queries u
    (guarded u
       ((if Qlt_bool (gigabytes details) (limit_of u) then safe_branch
         else overlimit_branch) u tg (client_of u) (gigabytes details) status)
       s w2).
Proof.
  intros Htraffic Hfits Hdescribe Hstatus.
  unfold check_and_act, cycle_body, guarded, after_queries, true_divide. exec.
  rewrite Htraffic. simpl. rewrite Hfits. exec.
  rewrite Hdescribe. simpl. rewrite Hstatus. simpl.
  destruct (Qlt_bool (gigabytes details) (limit_of u));
    [destruct (safe_branch u tg (client_of u) (gigabytes details) status s w2)
       as [[[]|e|n] s' w' evs]
    |destruct (overlimit_branch u tg (client_of u) (gigabytes details) status s w2)
       as [[[]|e|n] s' w' evs]];
    reflexivity.
Qed.

(** C1, as amended. The quota is the entry's [traffic_limit], 180 when it
    has none, and the traffic compared with it is [curr_gb], the bytes
    reported divided by 1024^3 as a double. When the division returns and
    the status query answers, the rest of the cycle is the safe branch
    (lines 139-200) when [curr_gb] is below the quota and the overlimit
    branch (lines 202-219) when it is at or above it: one of the two always
    applies, [curr_gb] equal to the quota takes the overlimit branch, the
    safe branch never sends a stop command and the overlimit branch never
    sends a start command. Against a quota between 0 and 2^23 GB this is
    the comparison of the exact byte count with the quota, and a count
    below 2^53 bytes is converted without rounding. When the division
    raises, the cycle ends there with an error logged. *)
Theorem quota_partition u tg s (w w1 : W) details :
  list_cdt_internet_traffic (client_of u) w = (Answer details, w1) →
  let bytes := total_bytes details in
  let gb := gigabytes details in
  let quota := limit_of u in
  let r := check_and_act u tg s w in
  ((∀ q, traffic_limit u = Some q → quota = q) ∧
   (traffic_limit u = None → quota = 180%Q)) ∧
  (fits details = true →
   ∀ instances w2 status,
     describe_instances (client_of u) (instance_id u) w1 = (Answer instances, w2) →
     first_status instances = Some status →
     ((gb < quota)%Q →
        r = after_queries u (guarded u (safe_branch u tg (client_of u) gb status) s w2) ∧
        count (is_stop (instance_id u)) (events r) = 0%nat) ∧
     ((quota <= gb)%Q →
        r = after_queries u
              (guarded u (overlimit_branch u tg (client_of u) gb status) s w2) ∧
        count (is_start (instance_id u)) (events r) = 0%nat) ∧
     ((gb == quota)%Q →
        r = after_queries u
              (guarded u (overlimit_branch u tg (client_of u) gb status) s w2)) ∧
     ((gb < quota)%Q ∨ (quota <= gb)%Q)) ∧
  ((0 <= quota)%Q → (quota <= inject_Z (2 ^ 23))%Q →
     ((gb < quota)%Q ↔ (inject_Z bytes < quota * inject_Z (1024 ^ 3))%Q)) ∧
  (Z.abs bytes < 2 ^ 53 →
     fits details = true ∧ gb = (inject_Z bytes / inject_Z (1024 ^ 3))%Q) ∧
  (fits details = false →
     r = Run (Done tt) s w1
           [EvTraffic (client_of u); EvLog (LogCheckError (name u) OverflowError)]).
Proof.
  intros Htraffic bytes gb quota r.
  split; [|split; [|split; [|split]]].
  - subst quota. unfold limit_of. split; [intros q Hq | intros Hq]; by rewrite Hq.
  - intros Hfits instances w2 status Hdescribe Hstatus.
    assert (Hobs : observes u w gb status)
      by (exists details, w1, instances, w2; done).
    assert (Hrun : r = after_queries u (guarded u
              ((if Qlt_bool gb quota then safe_branch else overlimit_branch)
                 u tg (client_of u) gb status) s w2))
      by (by apply (check_and_act_branch u tg s w w1 w2 details instances)).
    destruct (check_and_act_run u tg s w) as [_ Hcycle]. fold r in Hcycle.
    revert Hcycle. generalize (store r) (events r). intros s' evs Hcycle.
    assert (Hsafe : (gb < quota)%Q → count (is_stop (instance_id u)) evs = 0%nat).
    { intros Hlt. apply Qlt_bool_true in Hlt. subst gb quota.
      destruct Hcycle; same_observation Hobs; try congruence; by counts. }
    assert (Hover : (quota <= gb)%Q → count (is_start (instance_id u)) evs = 0%nat).
    { intros Hle. apply Qlt_bool_false in Hle. subst gb quota.
      destruct Hcycle; same_observation Hobs; try congruence; by counts. }
    repeat split.
    + rewrite Hrun. by rewrite (proj2 (Qlt_bool_true gb quota)).
    + by apply Hsafe.
    + rewrite Hrun. by rewrite (proj2 (Qlt_bool_false gb quota)).
    + by apply Hover.
    + intros Heq. rewrite Hrun. rewrite (proj2 (Qlt_bool_false gb quota)); [done|].
      rewrite Heq. apply Qle_refl.
    + destruct (Qlt_le_dec gb quota); [by left | by right].
  - intros H0 Hq. by apply gigabytes_lt.
  - intros Hsmall. split; [by apply fits_small|].
    subst gb. unfold gigabytes. fold bytes. by rewrite round53_exact.
  - intros Hfits. subst r. unfold check_and_act, cycle_body, true_divide. exec.
    rewrite Htraffic. simpl. rewrite Hfits. reflexivity.
Qed.

(** C10, as amended. A target whose record has no [traffic_limit] is
    handled as one whose limit is 180: its cycle is the cycle of the same
    record with [traffic_limit] 180. When the division of the bytes
    reported returns, which it does below 2^53 bytes at least, the rest of
    the cycle is the safe branch for less than 180 * 1024^3 bytes and the
    overlimit branch from 180 * 1024^3 bytes on; when it raises, the cycle
    ends there with an error logged. *)
Theorem default_traffic_limit u tg s (w w1 : W) details :
  traffic_limit u = None →
  list_cdt_internet_traffic (client_of u) w = (Answer details, w1) →
  let bytes := total_bytes details in
  let gb := gigabytes details in
  let r := check_and_act u tg s w in
  limit_of u = 180%Q ∧
  (∀ tg' s' (w' : W),
     check_and_act u tg' s' w' = check_and_act (with_traffic_limit 180 u) tg' s' w') ∧
  (fits details = true →
   ∀ instances w2 status,
     describe_instances (client_of u) (instance_id u) w1 = (Answer instances, w2) →
     first_status instances = Some status →
     (bytes < 180 * 1024 ^ 3 →
        r = after_queries u (guarded u (safe_branch u tg (client_of u) gb status) s w2)) ∧
     (180 * 1024 ^ 3 <= bytes →
        r = after_queries u
              (guarded u (overlimit_branch u tg (client_of u) gb status) s w2))) ∧
  (Z.abs bytes < 2 ^ 53 → fits details = true) ∧
  (fits details = false →
     r = Run (Done tt) s w1
           [EvTraffic (client_of u); EvLog (LogCheckError (name u) OverflowError)]).
Proof.
  intros Hnone Htraffic bytes gb r.
  assert (Hlimit : limit_of u = 180%Q) by (unfold limit_of; by rewrite Hnone).
  split; [exact Hlimit|]. split; [|split; [|split]].
  - intros tg' s' w'. destruct u as [i n a k g l]. simpl in Hnone. subst l. reflexivity.
  - intros Hfits instances w2 status Hdescribe Hstatus.
    pose proof (check_and_act_branch u tg s w w1 w2 details instances status
                  Htraffic Hfits Hdescribe Hstatus) as Hrun.
    fold gb r in Hrun. rewrite Hlimit in Hrun.
    pose proof (gigabytes_lt_whole details 180 ltac:(lia)) as Hlt.
    fold gb bytes in Hlt. change (inject_Z 180) with 180%Q in Hlt.
    split; intros Hbytes; rewrite Hrun.
    + by rewrite (proj2 Hlt).
    + destruct (Qlt_bool gb 180); [|reflexivity].
      pose proof (proj1 Hlt eq_refl). lia.
  - apply fits_small.
  - intros Hfits. subst r. unfold check_and_act, cycle_body, true_divide. exec.
    rewrite Htraffic. simpl. rewrite Hfits. reflexivity.
Qed.

(** C5. The polling loop entered with [waited = 0] makes at most 12 status
    queries, 12 being the timeout divided by the interval, rounded up; its
    events are whole rounds, each a sleep of 10 seconds, a status query and
    a log line, followed at most by the sleep and the query of a round
    whose query raised; it returns [False] only after 12 rounds, and
    Running is seen in no round but the last one made, after which the loop
    returns [True]. *)
Theorem polling_bound client iid name s (w : W) :
  let r := wait_running client iid name 0 s w in
  (START_WAIT_TIMEOUT + START_POLL_INTERVAL - 1) / START_POLL_INTERVAL = 12 ∧
  ∃ seen tail,
    events r = rounds client iid name 0 seen ++ tail ∧
    (tail = [] ∨ tail = [EvSleep 10; EvDescribe client iid]) ∧
    (count is_poll (events r) ≤ 12)%nat ∧
    count is_poll (events r) = (length seen + count is_poll tail)%nat ∧
    (∀ i, seen !! i = Some (Some "Running") →
       S i = length seen ∧ tail = [] ∧ result r = Done true) ∧
    (result r = Done true → last seen = Some (Some "Running")) ∧
    (result r = Done false → length seen = 12%nat ∧ tail = []) ∧
    (∀ code, result r ≠ Exited code).
Proof.
  intros r. split; [reflexivity|].
  destruct (wait_running_run client iid name 12 s w) as [_ Hp].
  change (START_WAIT_TIMEOUT - START_POLL_INTERVAL * Z.of_nat 12) with 0 in Hp.
  fold r in Hp.
  assert (Hpolls : ∀ waited seen,
            count is_poll (rounds client iid name waited seen) = length seen).
  { intros waited seen. revert waited.
    induction seen as [|st seen IH]; intros waited; simpl; [reflexivity|].
    by rewrite IH. }
  assert (Hlast : ∀ (seen : list (option string)) i,
            Some "Running" ∉ seen →
            (seen ++ [Some "Running"]) !! i = Some (Some "Running") →
            S i = (length seen + 1)%nat).
  { intros seen i Hn Hi.
    destruct (decide (i < length seen)%nat) as [Hlt|Hge].
    - rewrite lookup_app_l in Hi by done.
      exfalso. apply Hn. apply list_elem_of_lookup. by exists i.
    - apply lookup_lt_Some in Hi. rewrite length_app in Hi. simpl in Hi. lia. }
  assert (Hnone : ∀ (seen : list (option string)) i,
            Some "Running" ∉ seen → seen !! i ≠ Some (Some "Running")).
  { intros seen i Hn Hi. apply Hn. apply list_elem_of_lookup. by exists i. }
  revert Hp. generalize (result r) (events r). intros res evs Hp.
  destruct Hp as [seen Hn Hl|seen Hn Hl|seen e Hn Hl].
  - exists (seen ++ [Some "Running"]), [].
    rewrite app_nil_r, Hpolls, length_app. simpl.
    split; [reflexivity|]. split; [by left|]. split; [lia|]. split; [lia|].
    split; [|split; [|split]].
    + intros i Hi. by rewrite (Hlast seen i Hn Hi).
    + intros _. by rewrite last_snoc.
    + discriminate.
    + discriminate.
  - exists seen, [].
    rewrite app_nil_r, Hpolls. simpl.
    split; [reflexivity|]. split; [by left|]. split; [lia|]. split; [lia|].
    split; [|split; [|split]].
    + intros i Hi. by destruct (Hnone seen i Hn).
    + discriminate.
    + done.
    + discriminate.
  - exists seen, [EvSleep 10; EvDescribe client iid].
    rewrite count_app, Hpolls. simpl.
    split; [reflexivity|]. split; [by right|]. split; [lia|]. split; [lia|].
    split; [|split; [|split]].
    + intros i Hi. by destruct (Hnone seen i Hn).
    + discriminate.
    + discriminate.
    + discriminate.
Qed.

(** C2. The start-failure counter of a target reads 0 when the cache has
    none; a cycle that sent the start command, saw Running in no round and
    was not cut short by an exception leaves it one higher; a cycle that saw
    Running, in a round of the polling loop or as the status of a safe
    cycle, leaves it at 0; a cycle of the overlimit branch, and a cycle that
    sent a stop command, leave the counter of every target as it was. *)
Theorem start_failure_counter u tg s (w : W) :
  let r := check_and_act u tg s w in
  let iid := instance_id u in
  (stored s iid "start_failures" = None → get_start_failures s iid = 0%Q) ∧
  ((1 ≤ count (is_start iid) (events r))%nat →
   count is_running_seen (events r) = 0%nat →
   count is_abort (events r) = 0%nat →
   get_start_failures (store r) iid = (get_start_failures s iid + 1)%Q) ∧
  ((1 ≤ count is_running_seen (events r))%nat →
   get_start_failures (store r) iid = 0%Q) ∧
  (∀ gb, observes u w gb "Running" → (gb < limit_of u)%Q →
   get_start_failures (store r) iid = 0%Q) ∧
  (∀ gb status, observes u w gb status → (limit_of u <= gb)%Q →
   ∀ i, stored (store r) i "start_failures" = stored s i "start_failures") ∧
  ((1 ≤ count (is_stop iid) (events r))%nat →
   ∀ i, stored (store r) i "start_failures" = stored s i "start_failures").
Proof.
  intros r iid. subst iid.
  destruct (check_and_act_run u tg s w) as [_ Hcycle]. fold r in Hcycle.
  revert Hcycle. generalize (store r) (events r). clear r. intros s' evs Hcycle.
  unfold get_start_failures, get_number.
  split; [|split; [|split; [|split; [|split]]]].
  - intros Hnone. by rewrite Hnone.
  - intros Hstart Hseen Habort. revert Hstart Hseen Habort.
    destruct Hcycle; counts; try lia.
    intros _ _ _. unmark.
    rewrite stored_set_start_failures. by rewrite decide_True.
  - intros Hseen. revert Hseen.
    destruct Hcycle; counts; try lia.
    intros _. unmark.
    rewrite stored_clear_no_resource, decide_False by (intros []; done).
    rewrite stored_reset_start_failures. by rewrite decide_True.
  - intros gb Hobs Hlt. apply Qlt_bool_true in Hlt.
    destruct Hcycle; same_observation Hobs; try congruence.
    rewrite stored_reset_start_failures. by rewrite decide_True.
  - intros gb status Hobs Hle i. apply Qlt_bool_false in Hle.
    destruct Hcycle; same_observation Hobs; try congruence; try reflexivity.
    all: by unmark.
  - intros Hstop i. revert Hstop.
    destruct Hcycle; counts; try lia; try reflexivity.
    intros _. by unmark.
Qed.

Lemma traffic_queries_app a b :
  traffic_queries (a ++ b) = traffic_queries a ++ traffic_queries b.
Proof.
  induction a as [|e a IH]; simpl; [reflexivity|].
  destruct e; simpl; by rewrite ?IH.
Qed.

Lemma traffic_queries_none evs :
  count is_traffic evs = 0%nat → traffic_queries evs = [].
Proof.
  induction evs as [|e evs IH]; simpl; [reflexivity|].
  destruct e; simpl; try done. all: intros H; apply IH; lia.
Qed.

Lemma cycle_traffic_queries u tg s (w : W) s' evs :
  cycle u tg s w s' evs → traffic_queries evs = [client_of u].
Proof.
  intros Hcycle. destruct Hcycle; simpl; f_equal; rewrite ?traffic_queries_app; simpl;
    repeat match goal with
      | |- context [traffic_queries ?l] =>
          rewrite (traffic_queries_none l) by (by counts)
      end; reflexivity.
Qed.

Lemma cycles_traffic_queries tg s (w : W) us s' evs :
  cycles tg s w us s' evs → traffic_queries evs = map client_of us.
Proof.
  induction 1 as [|s w u us s1 w1 evs1 s2 evs2 Hcycle _ IH]; simpl; [reflexivity|].
  by rewrite traffic_queries_app, (cycle_traffic_queries _ _ _ _ _ _ Hcycle), IH.
Qed.


Lemma cycles_no_save tg s (w : W) us s' evs :
  cycles tg s w us s' evs → count is_save evs = 0%nat.
Proof.
  induction 1 as [|s w u us s1 w1 evs1 s2 evs2 Hcycle _ IH]; [reflexivity|].
  rewrite count_app, IH. destruct Hcycle; by counts.
Qed.

Lemma error_free_main (config : Config) s0 (w : W) :
  config_file w = Content config →
  let loop := for_each (default [] (users config))
                (fun u => check_and_act u (default no_telegram (telegram config)))
                (initial_state w) w in
  ∃ tail,
    result (main s0 w) = Done tt ∧
    store (main s0 w) = store loop ∧
    events (main s0 w) =
      EvLoadConfig :: EvLoadState :: events loop ++ EvSave (store loop) :: tail ∧
    traffic_queries (events loop) = map client_of (default [] (users config)) ∧
    count is_save (events loop) = 0%nat ∧
    traffic_queries tail = [] ∧
    count is_save tail = 0%nat.
Proof.
  intros Hconfig loop.
  pose proof (main_run config s0 w Hconfig) as Hmain. simpl in Hmain.
  fold loop in Hmain. rewrite Hmain. simpl.
  destruct (for_each_run (default no_telegram (telegram config))
              (default [] (users config)) (initial_state w) w) as [_ Hcycles].
  fold loop in Hcycles.
  eexists. split; [reflexivity|]. split; [reflexivity|]. split; [reflexivity|].
  split; [by eapply cycles_traffic_queries|]. split; [by eapply cycles_no_save|].
  by destruct (write_state_file (store loop) (world loop)) as [[[]|e] w2].
Qed.

Lemma check_and_act_entry_run entry tg s (w : W) :
  keyed entry = true →
  let r := check_and_act_entry entry tg s w in
  result r = Done tt ∧
  count is_save (events r) = 0%nat ∧
  traffic_queries (events r) = map client_of (option_list (user_of entry)).
Proof.
  destruct entry as [[i|] [n|] a k g l]; try discriminate. intros _.
  destruct a as [a|]; [destruct k as [k|]; [destruct g as [g|]|]|];
    try (by destruct k, g); try (by destruct g); try done.
  set (u := {| instance_id := i; name := n; ak := a; sk := k; region := g;
               traffic_limit := l |}).
  change (check_and_act_entry _ tg s w) with (check_and_act u tg s w).
  change (user_of _) with (Some u).
  destruct (check_and_act_run u tg s w) as [Hres Hcycle].
  split; [exact Hres|]. split.
  - revert Hcycle. generalize (store (check_and_act u tg s w))
      (events (check_and_act u tg s w)). intros s' evs Hcycle.
    destruct Hcycle; by counts.
  - by eapply cycle_traffic_queries.
Qed.

Lemma entries_run tg entries s (w : W) :
  (∀ entry, entry ∈ entries → keyed entry = true) →
  let r := for_each entries (fun entry => check_and_act_entry entry tg) s w in
  result r = Done tt ∧
  count is_save (events r) = 0%nat ∧
  traffic_queries (events r) = map client_of (omap user_of entries).
Proof.
  revert s w. induction entries as [|entry entries IH]; intros s w Hkeyed; simpl; [done|].
  unfold bind.
  destruct (check_and_act_entry_run entry tg s w) as (Hres & Hsave & Hq).
  { apply Hkeyed. by left. }
  destruct (check_and_act_entry entry tg s w) as [res s1 w1 evs1].
  simpl in Hres, Hsave, Hq. subst res.
  destruct (IH s1 w1) as (Hres' & Hsave' & Hq').
  { intros e He. apply Hkeyed. by right. }
  destruct (for_each entries _ s1 w1) as [res s2 w2 evs2].
  simpl in Hres', Hsave', Hq'. subst res. simpl.
  split; [reflexivity|]. split; [rewrite count_app; lia|].
  rewrite traffic_queries_app, Hq, Hq'. by destruct (user_of entry).
Qed.


(** C9, as amended. [main] exits with status 1, no target processed and
    the environment untouched, when the configuration file is missing or
    cannot be read. With the configuration loaded and [instance_id] and
    [name] present in every entry of [users], it exits with status 0
    whatever happened in the cycles: the loop over the entries returns,
    having queried the traffic of every entry that has its credentials, in
    order, and the dict it leaves is then written once to the state file,
    the environment being left as that write leaves it. *)
Theorem exit_status_of_main s0 (w : W) :
  let r := main s0 w in
  (config_file w = Missing →
     exit_status (result r) = 1 ∧
     events r = [EvLoadConfig; EvLog LogConfigMissing] ∧ world r = w) ∧
  (∀ e, config_file w = Unreadable e →
     exit_status (result r) = 1 ∧ events r = [EvLoadConfig] ∧ world r = w) ∧
  (∀ settings, config_file w = Content settings →
     (∀ entry, entry ∈ default [] (user_entries settings) → keyed entry = true) →
     let loop := for_each (default [] (user_entries settings))
                   (fun entry => check_and_act_entry entry
                                   (default no_telegram (telegram_entry settings)))
                   (initial_state w) w in
     let saved := write_state_file (store loop) (world loop) in
     exit_status (result r) = 0 ∧
     count is_save (events r) = 1%nat ∧
     result loop = Done tt ∧
     traffic_queries (events loop) =
       map client_of (omap user_of (default [] (user_entries settings))) ∧
     events r =
       EvLoadConfig :: EvLoadState :: events loop ++
       EvSave (store loop) :: save_tail saved.1 ∧
     store r = store loop ∧
     world r = saved.2).
Proof.
  intros r. split; [|split].
  - intros Hconfig. subst r. unfold main, load_config. exec. rewrite Hconfig. by simpl.
  - intros e Hconfig. subst r. unfold main, load_config. exec. rewrite Hconfig. by simpl.
  - intros settings Hconfig Hkeyed loop saved.
    destruct (entries_run (default no_telegram (telegram_entry settings))
                (default [] (user_entries settings)) (initial_state w) w Hkeyed)
      as (Hres & Hsave & Hq).
    fold loop in Hres, Hsave, Hq.
    pose proof (main_loaded settings s0 w Hconfig) as Hmain. cbv zeta in Hmain.
    fold loop in Hmain. fold saved in Hmain. rewrite Hres in Hmain.
    subst r. rewrite Hmain. simpl.
    split; [reflexivity|]. split; [|done].
    rewrite count_app, Hsave. simpl. by destruct saved.1.
Qed.

Lemma count_posts_alert posts :
  count is_delivery posts = length posts → count is_alert posts = 0%nat.
Proof. apply count_delivery. by intros [| | | | | | | | [] | | |]. Qed.

(** C8, as amended. A cycle that saw Running in the polling loop removes
    the [no_resource] timestamp of its target, leaves its [start_failed]
    timestamp and every key other than [no_resource], [resumed] and the
    failure counter as they were, and leaves the entries of the other
    targets as they were; the [resumed] timestamp stays as it was when no
    alert is sent, and becomes a reading of the clock made in the cycle when
    the alert is sent. *)
Theorem confirmed_start_frame u tg s (w : W) :
  let r := check_and_act u tg s w in
  let iid := instance_id u in
  (1 ≤ count is_running_seen (events r))%nat →
  stored (store r) iid "no_resource" = None ∧
  stored (store r) iid "start_failed" = stored s iid "start_failed" ∧
  (∀ key, key ≠ "no_resource" → key ≠ "resumed" → key ≠ "start_failures" →
     stored (store r) iid key = stored s iid key) ∧
  (∀ j, j ≠ iid → store r !! j = s !! j) ∧
  (count is_alert (events r) = 0%nat ∧
     stored (store r) iid "resumed" = stored s iid "resumed"
   ∨ count is_alert (events r) = 1%nat ∧
     ∃ now, EvTime now ∈ events r ∧ stored (store r) iid "resumed" = Some now).
Proof.
  intros r iid. subst iid.
  destruct (check_and_act_run u tg s w) as [_ Hcycle]. fold r in Hcycle.
  revert Hcycle. generalize (store r) (events r). clear r. intros s' evs Hcycle.
  destruct Hcycle; counts; try lia. intros _.
  match goal with Hn : notified _ _ _ _ _ _ _ _ _ |- _ => rename Hn into Hnotified end.
  assert (Hkeys : ∀ key, key ≠ "no_resource" → key ≠ "resumed" → key ≠ "start_failures" →
            stored s' (instance_id u) key = stored s (instance_id u) key).
  { intros key Hk1 Hk2 Hk3.
    rewrite (notified_stored _ _ _ _ _ _ _ _ _ (instance_id u) key Hnotified)
      by (right; done).
    rewrite stored_clear_no_resource, decide_False by (intros []; done).
    by rewrite stored_reset_start_failures, decide_False by (intros []; done). }
  split; [|split; [|split; [|split]]].
  - unmark. rewrite stored_clear_no_resource. by rewrite decide_True.
  - by apply Hkeys.
  - exact Hkeys.
  - intros j Hj.
    rewrite (notified_lookup _ _ _ _ _ _ _ _ _ j Hnotified) by done.
    unfold clear_no_resource, reset_start_failures.
    by rewrite !lookup_setdefault_with_ne.
  - destruct Hnotified as [now Hdue|now posts now' Hdue Hposts].
    + left. split; [reflexivity|].
      rewrite stored_clear_no_resource, decide_False by (intros []; done).
      by rewrite stored_reset_start_failures, decide_False by (intros []; done).
    + right. split.
      * simpl. rewrite count_app, (count_posts_alert posts Hposts). reflexivity.
      * exists now'. split.
        -- apply list_elem_of_In. simpl. do 4 right.
           apply in_or_app. right. simpl. do 3 right.
           apply in_or_app. right. by left.
        -- rewrite stored_mark_notified. by rewrite decide_True.
Qed.

Lemma cycle_frame u tg s (w : W) s' evs j :
  cycle u tg s w s' evs → j ≠ instance_id u → s' !! j = s !! j.
Proof.
  intros Hcycle Hj. destruct Hcycle; try reflexivity;
    repeat match goal with
      | Hn : notified _ _ _ _ _ _ _ ?s1 _ |- ?s1 !! _ = _ =>
          rewrite (notified_lookup _ _ _ _ _ _ _ _ _ j Hn) by done
      end;
    unfold clear_no_resource, reset_start_failures, set_start_failures;
    by rewrite ?lookup_setdefault_with_ne.
Qed.

(** One cycle with the gate closed for [iid]: no start command for [iid],
    and its counter stays unless the cycle is a safe cycle of [iid] that
    found the instance Running. *)
Lemma gate_cycle u tg s (w : W) s' evs iid :
  cycle u tg s w s' evs →
  Qle_bool MAX_START_FAILURES (get_start_failures s iid) = true →
  count (is_start iid) evs = 0%nat ∧
  (stored s' iid "start_failures" = stored s iid "start_failures" ∨
   instance_id u = iid ∧ EvLog (LogRunning (name u)) ∈ evs).
Proof.
  intros Hcycle Hgate.
  destruct (decide (instance_id u = iid)) as [<-|Hne].
  - destruct Hcycle; try congruence; counts;
      (split; [reflexivity|]); try (left; reflexivity); try (left; by unmark).
    right. split; [reflexivity|]. apply list_elem_of_In. simpl. tauto.
  - split.
    + destruct Hcycle; counts; rewrite ?bool_decide_eq_false_2 by done; reflexivity.
    + left. unfold stored. by rewrite (cycle_frame _ _ _ _ _ _ iid Hcycle).
Qed.

Lemma gate_cycles tg s (w : W) us s' evs iid :
  cycles tg s w us s' evs →
  Qle_bool MAX_START_FAILURES (get_start_failures s iid) = true →
  (∀ u, u ∈ us → instance_id u = iid → EvLog (LogRunning (name u)) ∉ evs) →
  count (is_start iid) evs = 0%nat ∧
  stored s' iid "start_failures" = stored s iid "start_failures".
Proof.
  induction 1 as [|s w u us s1 w1 evs1 s2 evs2 Hcycle _ IH]; intros Hgate Hquiet;
    [by split|].
  destruct (gate_cycle _ _ _ _ _ _ iid Hcycle Hgate) as [Hstart [Hsame|[Hu Hrun]]].
  2:{ exfalso. apply (Hquiet u); [by left | done | apply elem_of_app; by left]. }
  assert (Hgate1 : Qle_bool MAX_START_FAILURES (get_start_failures s1 iid) = true)
    by (unfold get_start_failures, get_number in *; by rewrite Hsame).
  destruct (IH Hgate1) as [Hstart2 Hsame2].
  { intros u' Hu' Hiid Hin. apply (Hquiet u'); [by right | done |].
    apply elem_of_app. by right. }
  split; [rewrite count_app; lia | congruence].
Qed.

(** C3. With the failure counter of a target at 3 or more, the cycles of
    any list of targets, in which no safe cycle of that target finds the
    instance Running, send no start command for it and leave its counter as
    it was; and the exhaustion path (lines 144-152) leaves the counter of
    every target as it was. *)
Theorem start_gate tg us s (w : W) iid :
  let r := for_each us (fun u => check_and_act u tg) s w in
  ((3 <= get_start_failures s iid)%Q →
   (∀ u, u ∈ us → instance_id u = iid → EvLog (LogRunning (name u)) ∉ events r) →
   count (is_start iid) (events r) = 0%nat ∧
   stored (store r) iid "start_failures" = stored s iid "start_failures") ∧
  (∀ u gb failures s0 (w0 : W) i,
     stored (store (resource_exhausted u tg gb failures s0 w0)) i "start_failures" =
     stored s0 i "start_failures").
Proof.
  intros r. split.
  - intros Hgate Hquiet.
    destruct (for_each_run tg us s w) as [_ Hcycles]. fold r in Hcycles.
    apply (gate_cycles _ _ _ _ _ _ iid Hcycles); [|exact Hquiet].
    by apply Qle_bool_iff.
  - intros u gb failures s0 w0 i.
    unfold resource_exhausted. exec.
    destruct (notify_run tg (instance_id u) "no_resource" None TitleNoResource
                {| msg_name := name u; msg_gb := gb; msg_failures := Some failures |}
                red s0 w0) as [_ Hn].
    destruct (notify tg (instance_id u) "no_resource" None TitleNoResource _ red s0 w0)
      as [res s1 w1 evs1].
    simpl in *. by unmark.
Qed.

Lemma within_window_app T a b :
  within_window T (a ++ b) → within_window T a ∧ within_window T b.
Proof.
  intros H. split; intros t Ht; apply H, elem_of_app; [by left | by right].
Qed.

Lemma within_window_cons T e evs :
  within_window T (e :: evs) → within_window T evs.
Proof. intros H t Ht. apply H. by right. Qed.

(** What an overlimit [notify] block does to the count and to the stamp. *)
Lemma overlimit_notified iid n T t m c s s' evs :
  notified iid "overlimit" (Some OVERLIMIT_COOLDOWN) t m c s s' evs →
  within_window T evs →
  let ts x := get_number x iid "overlimit" in
  (count (is_overlimit_alert n) evs ≤ 1)%nat ∧
  ((T <= ts s)%Q → count (is_overlimit_alert n) evs = 0%nat ∧ (T <= ts s')%Q) ∧
  ((1 ≤ count (is_overlimit_alert n) evs)%nat → (T <= ts s')%Q).
Proof.
  intros [now Hdue|now posts now' Hdue Hposts] Hwin ts; subst ts; simpl.
  - split; [lia|]. split; [done | lia].
  - assert (Hposts' : count (is_overlimit_alert n) posts = 0%nat).
    { apply count_delivery; [|done]. by intros [| | | | | | | | [] | | |]. }
    rewrite count_app, Hposts'. simpl.
    assert (Hnow : (now < T + OVERLIMIT_COOLDOWN)%Q) by (apply Hwin; by left).
    assert (Hnow' : (T <= now')%Q).
    { apply Hwin. right. right. apply elem_of_app. right. by left. }
    assert (Hts' : get_number (mark_notified now' s iid "overlimit") iid "overlimit" = now').
    { unfold get_number. rewrite stored_mark_notified. by rewrite decide_True. }
    rewrite Hts'.
    unfold can_notify in Hdue. simpl in Hdue. apply Qle_bool_iff in Hdue.
    split; [destruct t; try destruct (bool_decide _); simpl; lia|].
    split; [|done].
    intros Hts. exfalso. unfold OVERLIMIT_COOLDOWN in *. lra.
Qed.

Lemma overlimit_cycle u tg s (w : W) s' evs iid n T :
  cycle u tg s w s' evs →
  (name u = n → instance_id u = iid) →
  within_window T evs →
  let ts x := get_number x iid "overlimit" in
  (count (is_overlimit_alert n) evs ≤ 1)%nat ∧
  ((T <= ts s)%Q → count (is_overlimit_alert n) evs = 0%nat ∧ (T <= ts s')%Q) ∧
  ((1 ≤ count (is_overlimit_alert n) evs)%nat → (T <= ts s')%Q).
Proof.
  intros Hcycle Hname Hwin ts.
  assert (Hquiet : ∀ s1 evs1, stored s1 iid "overlimit" = stored s iid "overlimit" →
            count (is_overlimit_alert n) evs1 = 0%nat →
            (count (is_overlimit_alert n) evs1 ≤ 1)%nat ∧
            ((T <= ts s)%Q → count (is_overlimit_alert n) evs1 = 0%nat ∧ (T <= ts s1)%Q) ∧
            ((1 ≤ count (is_overlimit_alert n) evs1)%nat → (T <= ts s1)%Q)).
  { intros s1 evs1 Hsame Hzero. subst ts. unfold get_number. rewrite Hsame, Hzero.
    split; [lia|]. split; [done | lia]. }
  destruct (decide (instance_id u = iid)) as [<-|Hne].
  - destruct Hcycle;
      try (apply Hquiet; [first [reflexivity | by unmark] | by counts]).
    + apply Hquiet; [|by counts]. unmark.
      rewrite stored_clear_no_resource, decide_False by (intros []; done).
      by rewrite stored_reset_start_failures, decide_False by (intros []; done).
    + apply Hquiet; [|by counts]. unmark.
      by rewrite stored_set_start_failures, decide_False by (intros []; done).
    + apply Hquiet; [|by counts].
      by rewrite stored_reset_start_failures, decide_False by (intros []; done).
    + do 4 apply within_window_cons in Hwin. simpl.
      by eapply overlimit_notified.
    + do 3 apply within_window_cons in Hwin. simpl.
      by eapply overlimit_notified.
  - assert (Hn : name u ≠ n) by (intros Heq; by apply Hne, Hname).
    apply Hquiet.
    + unfold stored. by rewrite (cycle_frame _ _ _ _ _ _ iid Hcycle).
    + assert (Hposts : ∀ posts, count is_delivery posts = length posts →
                count (is_overlimit_alert n) posts = 0%nat).
      { intros posts. apply count_delivery. by intros [| | | | | | | | [] | | |]. }
      destruct Hcycle; counts; try reflexivity.
      all: match goal with
        | Hx : notified _ _ _ _ _ _ _ _ _ |- _ =>
            destruct Hx as [?|? posts ? ? Hp]; simpl; [reflexivity|];
            rewrite count_app, (Hposts posts Hp), bool_decide_eq_false_2 by done
        end.
      all: reflexivity.
Qed.

Lemma overlimit_cycles tg s (w : W) us s' evs iid n T :
  cycles tg s w us s' evs →
  (∀ u, u ∈ us → name u = n → instance_id u = iid) →
  within_window T evs →
  let ts x := get_number x iid "overlimit" in
  (count (is_overlimit_alert n) evs ≤ 1)%nat ∧
  ((T <= ts s)%Q → count (is_overlimit_alert n) evs = 0%nat ∧ (T <= ts s')%Q) ∧
  ((1 ≤ count (is_overlimit_alert n) evs)%nat → (T <= ts s')%Q).
Proof.
  intros Hcycles. simpl.
  induction Hcycles as [|s w u us s1 w1 evs1 s2 evs2 Hcycle _ IH]; intros Hnames Hwin.
  - simpl. split; [lia|]. split; [done | lia].
  - apply within_window_app in Hwin as [Hwin1 Hwin2].
    destruct (overlimit_cycle _ _ _ _ _ _ iid n T Hcycle) as (Hle1 & Hin1 & Hout1);
      [intros; apply Hnames; [by left | done] | done |].
    destruct IH as (Hle2 & Hin2 & Hout2);
      [intros u' Hu'; apply Hnames; by right | done |].
    rewrite count_app.
    set (c1 := count (is_overlimit_alert n) evs1) in *.
    set (c2 := count (is_overlimit_alert n) evs2) in *.
    split; [|split].
    + destruct (decide (1 ≤ c1)%nat) as [Hc1|Hc1]; [|lia].
      destruct (Hin2 (Hout1 Hc1)) as [-> _]. lia.
    + intros Hts. destruct (Hin1 Hts) as [-> Hts1].
      destruct (Hin2 Hts1) as [-> Hts2]. by split.
    + intros Hc. destruct (decide (1 ≤ c1)%nat) as [Hc1|Hc1].
      * by apply Hin2, Hout1.
      * apply Hout2. lia.
Qed.

Lemma overlimit_alert_stamped iid n t m c s s' evs :
  notified iid "overlimit" (Some OVERLIMIT_COOLDOWN) t m c s s' evs →
  (1 ≤ count (is_overlimit_alert n) evs)%nat →
  ∃ now now',
    EvTime now ∈ evs ∧ EvTime now' ∈ evs ∧
    (OVERLIMIT_COOLDOWN <= now - get_number s iid "overlimit")%Q ∧
    stored s' iid "overlimit" = Some now'.
Proof.
  intros [now Hdue|now posts now' Hdue Hposts]; simpl; [lia|]. intros _.
  exists now, now'. split; [by left|]. split.
  - right. right. apply elem_of_app. right. by left.
  - split; [by apply Qle_bool_iff in Hdue|].
    rewrite stored_mark_notified. by rewrite decide_True.
Qed.

(** C6. An overlimit alert of either kind is sent only when 86400 seconds
    have passed since the timestamp kept under the one key [overlimit] of
    the target, and it leaves a reading of the clock under that key; and in
    the cycles of any list of targets during which every reading of the
    clock falls in one window of 86400 seconds, at most one overlimit
    alert, of either kind, is sent about a target. *)
Theorem overlimit_once tg us s (w : W) iid n T :
  let r := for_each us (fun u => check_and_act u tg) s w in
  (∀ u s0 (w0 : W),
     let r0 := check_and_act u tg s0 w0 in
     (1 ≤ count (is_overlimit_alert (name u)) (events r0))%nat →
     ∃ now now',
       EvTime now ∈ events r0 ∧ EvTime now' ∈ events r0 ∧
       (86400 <= now - get_number s0 (instance_id u) "overlimit")%Q ∧
       stored (store r0) (instance_id u) "overlimit" = Some now') ∧
  ((∀ u, u ∈ us → name u = n → instance_id u = iid) →
   within_window T (events r) →
   (count (is_overlimit_alert n) (events r) ≤ 1)%nat).
Proof.
  intros r. split.
  - intros u s0 w0 r0.
    destruct (check_and_act_run u tg s0 w0) as [_ Hcycle]. fold r0 in Hcycle.
    revert Hcycle. generalize (store r0) (events r0). clear r0. intros s' evs Hcycle.
    destruct Hcycle; counts; try lia; intros Hsent;
      match goal with
      | Hn : notified _ "overlimit" _ _ _ _ _ _ _ |- _ =>
          destruct (overlimit_alert_stamped _ (name u) _ _ _ _ _ _ Hn Hsent)
            as (now & now' & Hnow & Hnow' & Hdue & Hstamp)
      end;
      exists now, now'; (split; [|split; [|by split]]);
      apply list_elem_of_In; simpl; rewrite <- list_elem_of_In; tauto.
  - intros Hnames Hwin.
    destruct (for_each_run tg us s w) as [_ Hcycles]. fold r in Hcycles.
    by destruct (overlimit_cycles _ _ _ _ _ _ iid n T Hcycles Hnames Hwin) as [Hle _].
Qed.

(** *** Further properties of a cycle *)

Lemma slept_app a b : slept (a ++ b) = slept a + slept b.
Proof.
  induction a as [|e a IH]; simpl; [reflexivity|].
  destruct e; rewrite ?IH; lia.
Qed.

Lemma slept_rounds client iid name waited seen :
  slept (rounds client iid name waited seen) =
  START_POLL_INTERVAL * Z.of_nat (length seen).
Proof.
  revert waited. induction seen as [|st seen IH]; intros waited.
  - simpl. lia.
  - cbn [rounds slept length]. rewrite IH. lia.
Qed.

Lemma poll_rounds client iid name waited seen :
  count is_poll (rounds client iid name waited seen) = length seen.
Proof.
  revert waited. induction seen as [|st seen IH]; intros waited; simpl; [reflexivity|].
  by rewrite IH.
Qed.

(** The polls and the sleep of the polling loop: one sleep of the interval
    before each poll, at most [k] polls. *)
Lemma polled_budget client iid name waited k res evs :
  polled client iid name waited k res evs →
  (count is_poll evs ≤ k)%nat ∧
  slept evs = START_POLL_INTERVAL * Z.of_nat (count is_poll evs).
Proof.
  intros [seen _ Hl|seen _ Hl|seen e _ Hl];
    rewrite ?count_app, ?slept_app, ?poll_rounds, ?slept_rounds, ?length_app;
    unfold START_POLL_INTERVAL; simpl; lia.
Qed.

Lemma notified_budget iid key cooldown t m c s s' evs :
  notified iid key cooldown t m c s s' evs →
  (count is_alert evs ≤ 1)%nat ∧ (count is_reading evs ≤ 2)%nat ∧ slept evs = 0.
Proof.
  intros [now Hdue|now posts now' Hdue Hposts]; simpl; [repeat split; lia|].
  rewrite !count_app, slept_app.
  rewrite (count_delivery is_alert posts), (count_delivery is_reading posts)
    by (done || by intros [| | | | | | | | [] | | |]).
  assert (Hs : slept posts = 0).
  { clear Hdue. induction posts as [|e posts IH]; [reflexivity|].
    simpl in Hposts.
    assert (Hle : ∀ l, (count is_delivery l ≤ length l)%nat).
    { induction l as [|x l IHl]; simpl; [lia|]. destruct (is_delivery x); lia. }
    specialize (Hle posts).
    destruct e as [| | | | | | | | [] | | |]; simpl in *; try lia; apply IH; lia. }
  rewrite Hs. simpl. repeat split; lia.
Qed.

(** Notes the budgets of the blocks of the cycle at hand. *)
Ltac budgets :=
  try match goal with
    | Hn : notified _ _ _ _ _ _ _ _ ?evs |- _ =>
        destruct (notified_budget _ _ _ _ _ _ _ _ _ Hn) as (? & ? & ?)
    end;
  try match goal with
    | Hp : polled _ _ _ _ _ _ ?evs |- _ =>
        destruct (polled_budget _ _ _ _ _ _ _ Hp) as (? & ?)
    end.

(** X9. Whatever the cloud answers, a cycle makes one traffic query, sends
    at most one command, a start or a stop of its own instance, calls
    [send_tg_alert] at most once, reads the clock at most twice and asks for
    the status at most 13 times; it asks for it more than once only after a
    start command. *)
Theorem cycle_budget u tg s (w : W) :
  let r := check_and_act u tg s w in
  let iid := instance_id u in
  count is_traffic (events r) = 1%nat ∧
  (count is_command (events r) ≤ 1)%nat ∧
  count is_command (events r) =
    (count (is_start iid) (events r) + count (is_stop iid) (events r))%nat ∧
  (count is_alert (events r) ≤ 1)%nat ∧
  (count is_reading (events r) ≤ 2)%nat ∧
  (count is_poll (events r) ≤ 13)%nat ∧
  ((2 ≤ count is_poll (events r))%nat → count (is_start iid) (events r) = 1%nat).
Proof.
  intros r iid. subst iid.
  destruct (check_and_act_run u tg s w) as [_ Hcycle]. fold r in Hcycle.
  revert Hcycle. generalize (store r) (events r). clear r. intros s' evs Hcycle.
  destruct Hcycle; budgets; counts;
    rewrite ?bool_decide_eq_true_2 by done; repeat split; lia.
Qed.

(** X10. A cycle sleeps one polling interval before each status query
    after the first and so at most the start timeout, 120 seconds, and only
    after a start command; the loop over a list of targets sleeps at most
    120 seconds per target. *)
Theorem cycle_sleep_bound u tg us s (w : W) :
  let r := check_and_act u tg s w in
  let loop := for_each us (fun u => check_and_act u tg) s w in
  slept (events r) = START_POLL_INTERVAL * Z.of_nat (count is_poll (events r) - 1) ∧
  0 <= slept (events r) <= START_WAIT_TIMEOUT ∧
  (0 < slept (events r) → count (is_start (instance_id u)) (events r) = 1%nat) ∧
  0 <= slept (events loop) <= START_WAIT_TIMEOUT * Z.of_nat (length us).
Proof.
  intros r loop.
  assert (Hcycle : ∀ u s (w : W) s' evs, cycle u tg s w s' evs →
            slept evs = START_POLL_INTERVAL * Z.of_nat (count is_poll evs - 1) ∧
            0 <= slept evs <= START_WAIT_TIMEOUT ∧
            (0 < slept evs → count (is_start (instance_id u)) evs = 1%nat)).
  { intros u0 s0 w0 s' evs Hc.
    destruct Hc; budgets; counts; rewrite ?slept_app; simpl;
      rewrite ?bool_decide_eq_true_2 by done;
      unfold START_POLL_INTERVAL, START_WAIT_TIMEOUT in *;
      repeat split; try lia.
    all: repeat match goal with
           | H : slept ?l = _ |- context [slept ?l] => rewrite H
           end; rewrite ?Nat.sub_0_r; lia. }
  destruct (check_and_act_run u tg s w) as [_ Hc]. fold r in Hc.
  destruct (Hcycle _ _ _ _ _ Hc) as (H1 & H2 & H3).
  split; [exact H1|]. split; [exact H2|]. split; [exact H3|].
  destruct (for_each_run tg us s w) as [_ Hcs]. fold loop in Hcs.
  revert Hcs. generalize (store loop) (events loop). clear - Hcycle.
  intros s' evs Hcs.
  induction Hcs as [|s w u us s1 w1 evs1 s2 evs2 Hc _ IH].
  - simpl. lia.
  - destruct (Hcycle _ _ _ _ _ Hc) as (_ & Hb & _).
    rewrite slept_app. cbn [length]. unfold START_WAIT_TIMEOUT in *. lia.
Qed.

(** X11. With the traffic below the limit and the instance in any state
    other than Stopped, a cycle does nothing beyond its two queries and one
    log line: no command, no alert, no reading of the clock, no sleep. It
    resets the failure counter when the instance is Running and leaves the
    dict untouched in an intermediate state. *)
Theorem steady_cycle u tg s (w : W) gb status :
  observes u w gb status →
  (gb < limit_of u)%Q →
  status ≠ "Stopped" →
  let r := check_and_act u tg s w in
  events r =
    [EvTraffic (client_of u); EvDescribe (client_of u) (instance_id u);
     EvLog (if decide (status = "Running") then LogRunning (name u)
            else LogIntermediate (name u) status)] ∧
  store r =
    (if decide (status = "Running") then reset_start_failures s (instance_id u) else s).
Proof.
  intros Hobs Hlt Hstopped r. apply Qlt_bool_true in Hlt.
  destruct (check_and_act_run u tg s w) as [_ Hcycle]. fold r in Hcycle.
  revert Hcycle. generalize (store r) (events r). clear r. intros s' evs Hcycle.
  destruct Hcycle; same_observation Hobs; try congruence.
  - by rewrite !decide_True by done.
  - by rewrite !decide_False by done.
Qed.

Lemma cycle_keys u tg s (w : W) s' evs key :
  cycle u tg s w s' evs →
  key ≠ "start_failures" → key ≠ "no_resource" → key ≠ "resumed" →
  key ≠ "start_failed" → key ≠ "overlimit" →
  stored s' (instance_id u) key = stored s (instance_id u) key.
Proof.
  intros Hcycle H1 H2 H3 H4 H5.
  destruct Hcycle; try reflexivity; try unmark;
    rewrite ?stored_clear_no_resource, ?stored_reset_start_failures,
      ?stored_set_start_failures;
    rewrite ?decide_False by (intros []; done); try reflexivity.
  all: by rewrite stored_reset_start_failures, decide_False by (intros []; done).
Qed.

(** X12. A cycle writes nothing but five keys of the entry of its own
    instance: the entry of every other instance, and every other key of its
    own, are as before. A cycle at or above the limit writes at most the
    key ['overlimit'], and a cycle that sends no alert and sees the
    instance neither Running nor started leaves the whole dict as it was. *)
Theorem cycle_write_set u tg s (w : W) :
  let r := check_and_act u tg s w in
  (∀ j, j ≠ instance_id u → store r !! j = s !! j) ∧
  (∀ key, key ∉ ["start_failures"; "no_resource"; "resumed"; "start_failed"; "overlimit"] →
     stored (store r) (instance_id u) key = stored s (instance_id u) key) ∧
  (∀ gb status, observes u w gb status → (limit_of u <= gb)%Q →
     ∀ key, key ≠ "overlimit" →
       stored (store r) (instance_id u) key = stored s (instance_id u) key) ∧
  (count is_alert (events r) = 0%nat →
   count (is_start (instance_id u)) (events r) = 0%nat →
   EvLog (LogRunning (name u)) ∉ events r →
   store r = s).
Proof.
  intros r.
  destruct (check_and_act_run u tg s w) as [_ Hcycle]. fold r in Hcycle.
  revert Hcycle. generalize (store r) (events r). clear r. intros s' evs Hcycle.
  split; [|split; [|split]].
  - intros j Hj. by eapply cycle_frame.
  - intros key Hkey.
    apply (cycle_keys _ _ _ _ _ _ key Hcycle);
      intros ->; apply Hkey; apply list_elem_of_In; simpl; tauto.
  - intros gb status Hobs Hle key Hkey. apply Qlt_bool_false in Hle.
    destruct Hcycle; same_observation Hobs; try congruence; try reflexivity.
    all: by unmark.
  - intros Halert Hstart Hrun. revert Halert Hstart Hrun.
    destruct Hcycle; try (intros; reflexivity); counts;
      rewrite ?bool_decide_eq_true_2 by done; try lia.
    2:{ intros _ _ Hrun. exfalso. apply Hrun. apply list_elem_of_In. simpl. tauto. }
    all: match goal with
         | Hn : notified _ _ _ _ _ _ _ _ _ |- _ =>
             destruct Hn as [?|? posts ? ? ?]; [intros; reflexivity|];
             simpl; intros; lia
         end.
Qed.

(** Membership in the events of a cycle. *)
Ltac in_events :=
  apply list_elem_of_In; repeat (simpl; rewrite ?in_app_iff); simpl; tauto.

Lemma cycle_counter u tg s (w : W) s' evs i (n : Z) :
  cycle u tg s w s' evs →
  (get_start_failures s i == inject_Z n)%Q →
  ∃ n' : Z,
    (n' = n ∨ n' = 0 ∨ (n' = n + 1 ∧ n < 3 ∧ instance_id u = i)) ∧
    (get_start_failures s' i == inject_Z n')%Q.
Proof.
  intros Hcycle Hn.
  assert (Hsame : stored s' i "start_failures" = stored s i "start_failures" →
            ∃ n' : Z,
              (n' = n ∨ n' = 0 ∨ (n' = n + 1 ∧ n < 3 ∧ instance_id u = i)) ∧
              (get_start_failures s' i == inject_Z n')%Q).
  { intros Heq. exists n. split; [by left|].
    unfold get_start_failures, get_number in *. by rewrite Heq. }
  assert (Hzero : stored s' i "start_failures" = Some 0%Q →
            ∃ n' : Z,
              (n' = n ∨ n' = 0 ∨ (n' = n + 1 ∧ n < 3 ∧ instance_id u = i)) ∧
              (get_start_failures s' i == inject_Z n')%Q).
  { intros Heq. exists 0. split; [right; by left|].
    unfold get_start_failures, get_number. by rewrite Heq. }
  destruct (decide (i = instance_id u)) as [->|Hne].
  2:{ apply Hsame. unfold stored. by rewrite (cycle_frame _ _ _ _ _ _ i Hcycle). }
  destruct Hcycle; try (by apply Hsame); try (apply Hsame; by unmark).
  - apply Hzero. unmark.
    rewrite stored_clear_no_resource, decide_False by (intros []; done).
    by rewrite stored_reset_start_failures, decide_True.
  - exists (n + 1).
    match goal with
    | Hgate : Qle_bool MAX_START_FAILURES _ = false |- _ =>
        apply Qle_bool_false in Hgate; rewrite Hn in Hgate;
        unfold Qlt, MAX_START_FAILURES in Hgate; simpl in Hgate
    end.
    split; [right; right; repeat split; lia|].
    unfold get_start_failures at 1, get_number. unmark.
    rewrite stored_set_start_failures, decide_True by done. simpl.
    by rewrite inject_Z_plus, Hn.
  - apply Hzero. by rewrite stored_reset_start_failures, decide_True.
Qed.

(** X13. A failure counter that holds a whole number from 0 to 3 holds,
    after a cycle, the same number, 0, or one more, the last only for the
    instance of the cycle and from a number below 3; so after the cycles of
    any list of targets it still holds a whole number from 0 to 3. *)
Theorem failure_counter_range u tg us s (w : W) i (n : Z) :
  0 <= n <= 3 →
  (get_start_failures s i == inject_Z n)%Q →
  let r := check_and_act u tg s w in
  let loop := for_each us (fun u => check_and_act u tg) s w in
  (∃ n' : Z,
     (n' = n ∨ n' = 0 ∨ (n' = n + 1 ∧ n < 3 ∧ instance_id u = i)) ∧
     (get_start_failures (store r) i == inject_Z n')%Q) ∧
  (∃ n' : Z, 0 <= n' <= 3 ∧ (get_start_failures (store loop) i == inject_Z n')%Q).
Proof.
  intros Hrange Hn r loop. split.
  - destruct (check_and_act_run u tg s w) as [_ Hcycle]. fold r in Hcycle.
    by eapply cycle_counter.
  - destruct (for_each_run tg us s w) as [_ Hcycles]. fold loop in Hcycles.
    revert Hcycles. generalize (store loop) (events loop). clear r loop.
    intros s' evs Hcycles. revert n Hrange Hn.
    induction Hcycles as [|s w u0 us s1 w1 evs1 s2 evs2 Hcycle _ IH]; intros n Hrange Hn.
    + by exists n.
    + destruct (cycle_counter _ _ _ _ _ _ i n Hcycle Hn) as (n1 & Hcase & Hn1).
      apply (IH n1); [lia | exact Hn1].
Qed.

Lemma cycles_frame tg s (w : W) us s' evs j :
  cycles tg s w us s' evs →
  (∀ u, u ∈ us → instance_id u ≠ j) →
  s' !! j = s !! j ∧ count (is_start j) evs = 0%nat ∧ count (is_stop j) evs = 0%nat.
Proof.
  induction 1 as [|s w u us s1 w1 evs1 s2 evs2 Hcycle _ IH]; intros Hus; [done|].
  assert (Hu : instance_id u ≠ j) by (apply Hus; by left).
  destruct IH as (Hs & Hstart & Hstop); [intros u' Hu'; apply Hus; by right|].
  rewrite !count_app, Hstart, Hstop, Hs.
  split; [by apply (cycle_frame _ _ _ _ _ _ j Hcycle)|].
  split; destruct Hcycle; counts; by rewrite ?bool_decide_eq_false_2 by done.
Qed.

(** X14. [main] leaves the entry of an instance that is not in the
    configuration as the state file had it, and sends no command for it;
    with no target configured it makes no cloud call and still saves the
    dict it loaded. *)
Theorem main_keeps_absent_targets (config : Config) s0 (w : W) j :
  config_file w = Content config →
  let r := main s0 w in
  ((∀ u, u ∈ default [] (users config) → instance_id u ≠ j) →
   store r !! j = initial_state w !! j ∧
   count (is_start j) (events r) = 0%nat ∧ count (is_stop j) (events r) = 0%nat) ∧
  (default [] (users config) = [] →
   store r = initial_state w ∧
   ∃ tail,
     events r = EvLoadConfig :: EvLoadState :: EvSave (initial_state w) :: tail ∧
     (tail = [] ∨ ∃ e, tail = [EvLog (LogSaveFailed e)])).
Proof.
  intros Hconfig r.
  pose proof (main_run config s0 w Hconfig) as Hmain. cbv zeta in Hmain.
  subst r. rewrite Hmain. simpl. split.
  - intros Hus.
    destruct (for_each_run (default no_telegram (telegram config))
                (default [] (users config)) (initial_state w) w) as [_ Hcycles].
    destruct (cycles_frame _ _ _ _ _ _ j Hcycles Hus) as (Hs & Hstart & Hstop).
    rewrite !count_app, Hstart, Hstop. simpl.
    split; [exact Hs|].
    match goal with |- context [save_tail ?a] => by destruct a as [[]|e] end.
  - intros Hnone. rewrite Hnone. simpl. split; [reflexivity|].
    eexists. split; [reflexivity|].
    match goal with |- context [save_tail ?a] => destruct a as [[]|e] end;
      [by left | right; by exists e].
Qed.

(** X15. When a cycle calls [send_tg_alert], whatever the Telegram
    configuration and the answer to the post, the alert is about the target
    of the cycle, it is green for the resumed alert only, and the key of
    the alert holds a reading of the clock made in the cycle. *)
Theorem alert_is_stamped u tg s (w : W) :
  let r := check_and_act u tg s w in
  count is_alert (events r) = 1%nat →
  ∃ t m c now,
    EvAlert t m c ∈ events r ∧
    EvTime now ∈ events r ∧
    stored (store r) (instance_id u) (key_of_title t) = Some now ∧
    msg_name m = name u ∧
    (c = green ↔ t = TitleResumed).
Proof.
  intros r.
  destruct (check_and_act_run u tg s w) as [_ Hcycle]. fold r in Hcycle.
  revert Hcycle. generalize (store r) (events r). clear r. intros s' evs Hcycle.
  destruct Hcycle; counts; try discriminate;
    match goal with
    | Hn : notified _ _ _ ?t ?m ?c _ _ _ |- _ =>
        destruct Hn as [now Hdue|now posts now' Hdue Hposts]; simpl; [discriminate|];
        intros _; exists t, m, c, now'
    end;
    (split; [in_events|]); (split; [in_events|]);
    (split; [simpl; rewrite stored_mark_notified; by rewrite decide_True|]);
    (split; [reflexivity|]); split; intros H'; (reflexivity || discriminate H').
Qed.

(** *** The collaborators of the cycle *)

(** X4. [send_tg_alert] never raises and never touches the dict. Without
    a bot token or a chat id, absent or empty, it makes no request at all;
    with both it makes one post, and a post that fails is logged and
    nothing more. *)
Theorem telegram_delivery tg t m c s (w : W) :
  let r := send_tg_alert tg t m c s w in
  result r = Done tt ∧ store r = s ∧
  (truthy (bot_token tg) && truthy (chat_id tg) = false →
     events r = [EvAlert t m c] ∧ world r = w) ∧
  (∀ token chat,
     bot_token tg = Some token → chat_id tg = Some chat → token ≠ "" → chat ≠ "" →
     (∀ w', requests_post token chat t m w = (Answer tt, w') →
        events r = [EvAlert t m c; EvPost token chat t m]) ∧
     (∀ e w', requests_post token chat t m w = (Failure e, w') →
        events r = [EvAlert t m c; EvPost token chat t m; EvLog (LogTgFailed e)])) ∧
  truthy None = false ∧ truthy (Some "") = false.
Proof.
  intros r. subst r. unfold send_tg_alert. exec.
  assert (Hstr : ∀ x : string, x ≠ "" → truthy (Some x) = true).
  { intros x Hx. simpl. apply negb_true_iff. by apply String.eqb_neq. }
  destruct (truthy (bot_token tg) && truthy (chat_id tg)) eqn:Hconf.
  - apply andb_true_iff in Hconf as [Htoken Hchat]. rewrite Htoken, Hchat. simpl.
    destruct (requests_post (default "" (bot_token tg)) (default "" (chat_id tg)) t m w)
      as [[[]|e] w1] eqn:Hpost; simpl;
      (split; [reflexivity|]); (split; [reflexivity|]); (split; [discriminate|]);
      (split; [|done]);
      intros token chat Ht Hc _ _; rewrite Ht, Hc in Hpost |- *; simpl in Hpost |- *;
      split; intros; congruence.
  - assert (Hor : negb (truthy (bot_token tg)) || negb (truthy (chat_id tg)) = true).
    { apply andb_false_iff in Hconf as [->| ->]; [reflexivity | apply orb_true_r]. }
    rewrite Hor. simpl.
    split; [reflexivity|]. split; [reflexivity|]. split; [done|]. split; [|done].
    intros token chat Ht Hc Htoken Hchat. exfalso.
    rewrite Ht, Hc, (Hstr token Htoken), (Hstr chat Hchat) in Hconf. discriminate.
Qed.

(** X5. [get_instance_status] makes one status query and never touches
    the dict; it raises what the query raises, and otherwise returns the
    status of the first instance of the answer only: [None] for an empty
    answer and for a first instance without a status. *)
Theorem instance_status_query client iid s (w : W) :
  let r := get_instance_status client iid s w in
  store r = s ∧ events r = [EvDescribe client iid] ∧
  (∀ e w', describe_instances client iid w = (Failure e, w') → result r = Raised e) ∧
  (∀ instances w', describe_instances client iid w = (Answer instances, w') →
     result r = Done (first_status instances)) ∧
  first_status [] = None ∧
  (∀ rest, first_status (None :: rest) = None) ∧
  (∀ status rest, first_status (Some status :: rest) = Some status).
Proof.
  intros r. subst r. exec.
  destruct (describe_instances client iid w) as [[instances|e] w1]; simpl;
    repeat split; intros; congruence.
Qed.

(** X6. [load_state] never raises: it returns the content of the state
    file, and the empty dict when the file is missing or cannot be read; in
    the empty dict every failure counter reads 0 and every cooldown check
    compares the window with the clock itself. *)
Theorem load_state_soft_fail s (w : W) :
  let r := load_state s w in
  result r = Done (initial_state w) ∧ store r = s ∧
  (∀ state, state_file w = Content state → initial_state w = state) ∧
  (state_file w = Missing → initial_state w = ∅) ∧
  (∀ e, state_file w = Unreadable e → initial_state w = ∅) ∧
  (initial_state w = ∅ →
   ∀ now i k cooldown,
     get_start_failures (initial_state w) i = 0%Q ∧
     can_notify now (initial_state w) i k cooldown =
       Qle_bool (default NOTIFY_COOLDOWN cooldown) (now - 0)).
Proof.
  intros r. subst r. unfold load_state, initial_state. exec.
  split; [reflexivity|]. split; [reflexivity|].
  split; [by intros state ->|]. split; [by intros ->|]. split; [by intros e ->|].
  intros -> now i k cooldown. by split.
Qed.

(** X7. [save_state] never raises and never touches the dict: it writes
    the dict as it is, and a write that fails is logged and nothing more. *)
Theorem save_state_soft_fail s (w : W) :
  let r := save_state s w in
  result r = Done tt ∧ store r = s ∧
  (∀ w', write_state_file s w = (Answer tt, w') → events r = [EvSave s]) ∧
  (∀ e w', write_state_file s w = (Failure e, w') →
     events r = [EvSave s; EvLog (LogSaveFailed e)]).
Proof.
  intros r. subst r. unfold save_state. exec.
  destruct (write_state_file s w) as [[[]|e] w1]; simpl;
    repeat split; intros; congruence.
Qed.

(** X16. The polling loop leaves the dict as it was and does nothing but
    sleep, ask for the status and log: no command, no alert, no reading of
    the clock, and a sleep of one interval for each status query. *)
Theorem polling_is_passive client iid name s (w : W) :
  let r := wait_running client iid name 0 s w in
  store r = s ∧
  count is_command (events r) = 0%nat ∧
  count is_alert (events r) = 0%nat ∧
  count is_reading (events r) = 0%nat ∧
  count is_traffic (events r) = 0%nat ∧
  slept (events r) = START_POLL_INTERVAL * Z.of_nat (count is_poll (events r)).
Proof.
  intros r.
  destruct (wait_running_run client iid name 12 s w) as [Hs Hp].
  change (START_WAIT_TIMEOUT - START_POLL_INTERVAL * Z.of_nat 12) with 0 in Hs, Hp.
  fold r in Hs, Hp.
  split; [exact Hs|].
  rewrite !(count_polled _ _ _ _ _ _ _ _ Hp) by on_events.
  repeat split. by destruct (polled_budget _ _ _ _ _ _ _ Hp).
Qed.

End Decision.

(** ** The cooldown check *)

(** C4, as amended. With no timestamp stored for the target and the key the
    check reads the timestamp as 0: it answers [True] exactly when the
    clock shows at least the window, not always. After [mark_notified]
    stored the reading [ts], the check made at the reading [now] answers
    [False] when [now - ts] is below the window and [True] when it is at
    least the window, the two readings and their difference being doubles;
    so it answers [False] for a positive window when the clock still shows
    [ts]. In a run, the mark and the check that follows it read the clock
    one after the other, and the check compares the window with the
    difference of the two readings. *)
Theorem cooldown_check {W : Type} {E : Environment W} now ts state iid key window (w : W) :
  (stored state iid key = None →
     can_notify now state iid key (Some window) = Qle_bool window now) ∧
  (is_double now = true → is_double ts = true → is_double (now - ts) = true →
     ((now - ts < window)%Q →
        can_notify now (mark_notified ts state iid key) iid key (Some window) = false) ∧
     ((window <= now - ts)%Q →
        can_notify now (mark_notified ts state iid key) iid key (Some window) = true)) ∧
  ((0 < window)%Q →
     can_notify ts (mark_notified ts state iid key) iid key (Some window) = false) ∧
  (let t1 := (wall_clock w).1 in
   let t2 := (wall_clock (wall_clock w).2).1 in
   is_double t1 = true → is_double t2 = true → is_double (t2 - t1) = true →
   result ((mark_notified_now iid key;; can_notify_now iid key (Some window)) state w) =
     Done (Qle_bool window (t2 - t1))).
Proof.
  assert (Hget : ∀ t, get_number (mark_notified t state iid key) iid key = t).
  { intros t. unfold get_number, stored, mark_notified, setdefault_with.
    by rewrite lookup_insert_eq; simpl; rewrite lookup_insert_eq. }
  split; [|split; [|split]].
  - intros Hnone. unfold can_notify, get_number. rewrite Hnone. simpl.
    destruct (Qle_bool window now) eqn:Hle.
    + apply Qle_bool_iff. apply Qle_bool_iff in Hle. lra.
    + apply Qle_bool_false. apply Qle_bool_false in Hle. lra.
  - intros _ _ _. unfold can_notify. simpl. rewrite Hget. split; intros H.
    + by apply Qle_bool_false.
    + by apply Qle_bool_iff.
  - intros Hpos. unfold can_notify. simpl. rewrite Hget. apply Qle_bool_false. lra.
  - intros t1 t2 _ _ _. subst t1 t2.
    unfold mark_notified_now, can_notify_now. exec.
    destruct (wall_clock w) as [t1 w1]. simpl.
    destruct (wall_clock w1) as [t2 w2]. simpl.
    unfold can_notify. simpl. by rewrite Hget.
Qed.


(** ** Further properties of the state cache *)

Lemma setdefault_with_twice f g i (s : State) :
  setdefault_with g i (setdefault_with f i s) =
  setdefault_with (fun h => g (f h)) i s.
Proof.
  unfold setdefault_with. rewrite lookup_insert_eq. simpl.
  by rewrite insert_insert_eq.
Qed.

(** X1. The failure counter written for an instance is the one read back,
    a reset is a write of 0, the last write wins, a write leaves every
    other key and every other instance as they were, and so leaves every
    cooldown as it was. *)
Theorem start_failures_round_trip s i n m :
  get_start_failures (set_start_failures s i n) i = n ∧
  get_start_failures (reset_start_failures s i) i = 0%Q ∧
  reset_start_failures s i = set_start_failures s i 0 ∧
  set_start_failures (set_start_failures s i n) i m = set_start_failures s i m ∧
  (∀ j k, j ≠ i ∨ k ≠ "start_failures" →
     stored (set_start_failures s i n) j k = stored s j k) ∧
  (∀ now j k cooldown, k ≠ "start_failures" →
     can_notify now (set_start_failures s i n) j k cooldown =
     can_notify now s j k cooldown).
Proof.
  assert (Hother : ∀ j k, j ≠ i ∨ k ≠ "start_failures" →
            stored (set_start_failures s i n) j k = stored s j k).
  { intros j k Hne. rewrite stored_set_start_failures.
    apply decide_False. intros [-> <-]. by destruct Hne. }
  split; [|split; [|split; [|split; [|split]]]].
  - unfold get_start_failures, get_number.
    rewrite stored_set_start_failures. by rewrite decide_True.
  - unfold get_start_failures, get_number.
    rewrite stored_reset_start_failures. by rewrite decide_True.
  - reflexivity.
  - unfold set_start_failures. rewrite setdefault_with_twice.
    unfold setdefault_with. f_equal. by rewrite insert_insert_eq.
  - exact Hother.
  - intros now j k cooldown Hk. unfold can_notify, get_number.
    rewrite Hother; [reflexivity | by right].
Qed.

(** X2. Cooldowns are kept per instance and per key: a mark leaves the
    check of every other key and instance as it was; after a mark at [ts]
    the check of the marked key no longer depends on what was stored
    before; the last mark wins; and a mark under a key other than
    ['start_failures'] leaves every failure counter as it was, while a mark
    under that very key overwrites the counter of the instance. *)
Theorem cooldown_per_key now ts s s' i k cooldown :
  (∀ j k', j ≠ i ∨ k' ≠ k →
     can_notify now (mark_notified ts s i k) j k' cooldown =
     can_notify now s j k' cooldown) ∧
  can_notify now (mark_notified ts s i k) i k cooldown =
    can_notify now (mark_notified ts s' i k) i k cooldown ∧
  stored (mark_notified ts s i k) i k = Some ts ∧
  (∀ ts', mark_notified ts' (mark_notified ts s i k) i k = mark_notified ts' s i k) ∧
  (k ≠ "start_failures" →
     ∀ j, get_start_failures (mark_notified ts s i k) j = get_start_failures s j) ∧
  get_start_failures (mark_notified ts s i "start_failures") i = ts.
Proof.
  split; [|split; [|split; [|split; [|split]]]].
  - intros j k' Hne. unfold can_notify, get_number.
    rewrite stored_mark_notified, decide_False; [reflexivity|].
    intros [-> ->]. by destruct Hne.
  - unfold can_notify, get_number.
    rewrite !stored_mark_notified. by rewrite !decide_True.
  - rewrite stored_mark_notified. by rewrite decide_True.
  - intros ts'. unfold mark_notified. rewrite setdefault_with_twice.
    unfold setdefault_with. f_equal. by rewrite insert_insert_eq.
  - intros Hk j. unfold get_start_failures, get_number.
    rewrite stored_mark_notified, decide_False; [reflexivity|].
    intros [_ ->]. by apply Hk.
  - unfold get_start_failures, get_number.
    rewrite stored_mark_notified. by rewrite decide_True.
Qed.


(** X3. A cooldown that has elapsed stays elapsed as the clock moves on and
    the dict is left alone, a shorter window has elapsed whenever a longer
    one has, and the default window is [NOTIFY_COOLDOWN], 3600 seconds. *)
Theorem cooldown_stays_elapsed now now' s i k window window' :
  can_notify now s i k (Some window) = true →
  (now <= now')%Q →
  (window' <= window)%Q →
  can_notify now' s i k (Some window') = true ∧
  can_notify now s i k None = can_notify now s i k (Some 3600%Q).
Proof.
  unfold can_notify. simpl. intros Hdue Hnow Hwindow.
  apply Qle_bool_iff in Hdue. split; [|reflexivity].
  apply Qle_bool_iff. lra.
Qed.



(** ** The properties on sample runs *)

(** 100 GiB against the default quota: the safe branch. *)
Lemma quota_partition_witness :
  let w := scene 1700000000 100 [Some "Running"] in
  let r := check_and_act alice no_telegram ∅ w in
  count (is_stop "i-alice") (events r) = 0%nat ∧
  ((gigabytes [Some (100 * GiB)%Z] < limit_of alice)%Q ↔
   (inject_Z (total_bytes [Some (100 * GiB)%Z]) < limit_of alice * inject_Z (1024 ^ 3))%Q).
Proof.
  intros w r.
  refine (let H := quota_partition alice no_telegram ∅ w w [Some (100 * GiB)] eq_refl in
          conj (proj2 (proj1 (proj1 (proj2 H) eq_refl [Some "Running"] (set_statuses [] w)
                                "Running" eq_refl eq_refl) _))
               (proj1 (proj2 (proj2 H)) _ _)).
  - vm_compute. reflexivity.
  - vm_compute. discriminate.
  - vm_compute. discriminate.
Defined.

(** The claim as written fails on the rounding of the division: 2^54 - 1
    bytes are strictly below a quota of 2^24 GB, yet [curr_gb] is 2^24 and
    the running instance is stopped. *)
Lemma quota_partition_counterexample :
  let u := with_traffic_limit (inject_Z (2 ^ 24)) alice in
  let w := world_with 1700000000 (Answer [Some (2 ^ 54 - 1)]) [Some "Running"] Missing in
  let r := check_and_act u no_telegram ∅ w in
  (inject_Z (total_bytes [Some (2 ^ 54 - 1)%Z]) < limit_of u * inject_Z (1024 ^ 3))%Q ∧
  (gigabytes [Some (2 ^ 54 - 1)%Z] == limit_of u)%Q ∧
  count (is_stop "i-alice") (events r) = 1%nat.
Proof. vm_compute. repeat split; reflexivity. Qed.

(** 100 GiB and no [traffic_limit]: the safe branch. *)
Lemma default_traffic_limit_witness :
  let w := scene 1700000000 100 [Some "Running"] in
  let r := check_and_act alice no_telegram ∅ w in
  limit_of alice = 180%Q ∧
  r = check_and_act (with_traffic_limit 180 alice) no_telegram ∅ w ∧
  r = after_queries alice
        (guarded alice
           (safe_branch alice no_telegram (client_of alice)
              (gigabytes [Some (100 * GiB)]) "Running") ∅ (set_statuses [] w)).
Proof.
  intros w r.
  refine (let H := default_traffic_limit alice no_telegram ∅ w w [Some (100 * GiB)]
                     eq_refl eq_refl in
          conj (proj1 H)
            (conj (proj1 (proj2 H) no_telegram ∅ w)
               (proj1 (proj1 (proj2 (proj2 H)) eq_refl [Some "Running"]
                         (set_statuses [] w) "Running" eq_refl eq_refl) _))).
  vm_compute. reflexivity.
Defined.

(** The claim as written fails on a byte count too large for a double:
    10^320 bytes are above 180 GB, yet the division raises and the cycle
    ends before the status query, the running instance left alone. *)
Lemma default_traffic_limit_counterexample :
  let w := world_with 1700000000 (Answer [Some (10 ^ 320)]) [Some "Running"] Missing in
  let r := check_and_act alice no_telegram ∅ w in
  traffic_limit alice = None ∧
  180 * 1024 ^ 3 <= total_bytes [Some (10 ^ 320)] ∧
  events r = [EvTraffic (client_of alice); EvLog (LogCheckError "alice" OverflowError)] ∧
  count (is_stop "i-alice") (events r) = 0%nat.
Proof.
  split; [reflexivity|]. split; [vm_compute; discriminate|].
  vm_compute. split; reflexivity.
Qed.

(** Twelve rounds without Running after the start command: the counter
    goes from 0 to 1. *)
Lemma start_failure_counter_witness :
  let w := scene 1700000000 100 (Some "Stopped" :: replicate 12 (Some "Starting")) in
  let r := check_and_act alice no_telegram ∅ w in
  get_start_failures (store r) "i-alice" = (get_start_failures ∅ "i-alice" + 1)%Q.
Proof.
  intros w r.
  refine (proj1 (proj2 (start_failure_counter alice no_telegram ∅ w)) _ _ _).
  - vm_compute. lia.
  - vm_compute. reflexivity.
  - vm_compute. reflexivity.
Defined.

(** Two cycles of a stopped instance with three failures on record. *)
Lemma start_gate_witness :
  let s := cache [("start_failures", 3%Q)] in
  let w := scene 1700000000 100 [Some "Stopped"; Some "Stopped"] in
  let r := for_each [alice; alice] (fun u => check_and_act u no_telegram) s w in
  count (is_start "i-alice") (events r) = 0%nat ∧
  stored (store r) "i-alice" "start_failures" = stored s "i-alice" "start_failures".
Proof.
  intros s w r.
  refine (proj1 (start_gate no_telegram [alice; alice] s w "i-alice") _ _).
  - vm_compute. discriminate.
  - intros u Hu _ Hin.
    apply list_elem_of_In in Hu. simpl in Hu. destruct Hu as [<-|[<-|[]]].
    all: apply list_elem_of_In in Hin; vm_compute in Hin;
      repeat (destruct Hin as [Hin|Hin]; [discriminate Hin|]); exact Hin.
Defined.

(** A stop on an overlimit Running instance, then a cycle on the stopped
    instance, the clock at a standstill: one alert. *)
Lemma overlimit_once_witness :
  let w := scene 1700000000 200 [Some "Running"; Some "Stopped"] in
  let r := for_each [alice; alice] (fun u => check_and_act u no_telegram) ∅ w in
  (count (is_overlimit_alert "alice") (events r) ≤ 1)%nat.
Proof.
  intros w r.
  refine (proj2 (overlimit_once no_telegram [alice; alice] ∅ w "i-alice" "alice"
                   1700000000) _ _).
  - intros u Hu _.
    apply list_elem_of_In in Hu. simpl in Hu. by destruct Hu as [<-|[<-|[]]].
  - intros t Ht. apply list_elem_of_In in Ht. vm_compute in Ht.
    repeat (destruct Ht as [Ht|Ht];
            [first [discriminate Ht
                   | injection Ht as <-; split; vm_compute; [discriminate | reflexivity]]|]).
    destruct Ht.
Defined.


(** One entry with its keys, the instance running below the quota: [main]
    exits with status 0 and writes the dict once. *)
Lemma exit_status_of_main_witness :
  let w := scene 1700000000 100 [Some "Running"] in
  let r := main ∅ w in
  exit_status (result r) = 0 ∧
  count is_save (events r) = 1%nat ∧
  state_file (world r) = Content (store r).
Proof.
  intros w r.
  assert (H : exit_status (result r) = 0 ∧ count is_save (events r) = 1%nat ∧
              world r = (write_state_file (store r) (set_statuses [] w)).2).
  { assert (Hconfig : config_file w =
                        Content (settings_of {| users := Some [alice]; telegram := None |}))
      by reflexivity.
    destruct (proj2 (proj2 (exit_status_of_main ∅ w)) _ Hconfig)
      as (Hexit & Hsave & _ & _ & _ & Hstore & Hworld).
    - intros entry Hentry. apply list_elem_of_In in Hentry. simpl in Hentry.
      by destruct Hentry as [<-|[]].
    - split; [exact Hexit|]. split; [exact Hsave|].
      fold r in Hworld. rewrite Hworld. reflexivity. }
  destruct H as (Hexit & Hsave & Hworld).
  split; [exact Hexit|]. split; [exact Hsave|]. by rewrite Hworld.
Defined.

(** The claim as written fails on an entry of [users] without ['name']:
    the configuration is loaded, the first target is processed, then
    [KeyError] ends [main] with status 1 and nothing is written. *)
Lemma exit_status_of_main_counterexample :
  let settings := {| user_entries := Some [entry_of alice; nameless];
                     telegram_entry := None |} in
  let w := world_of 1700000000 0 (Answer [Some (100 * GiB)]) [Some "Running"]
             (Content settings) in
  let r := main ∅ w in
  config_file w = Content settings ∧
  result r = Raised (KeyError "name") ∧
  exit_status (result r) = 1 ∧
  traffic_queries (events r) = [client_of alice] ∧
  count is_save (events r) = 0%nat ∧
  state_file (world r) = Missing.
Proof. vm_compute. repeat split; reflexivity. Qed.

Lemma confirmed_start_frame_witness :
  let s := cache [("no_resource", 5%Q); ("start_failed", 7%Q)] in
  let w := scene 1700000000 100 [Some "Stopped"; Some "Running"] in
  let r := check_and_act alice no_telegram s w in
  stored (store r) "i-alice" "no_resource" = None ∧
  stored (store r) "i-alice" "start_failed" = stored s "i-alice" "start_failed".
Proof.
  intros s w r.
  refine (let H := confirmed_start_frame alice no_telegram s w _ in
          conj (proj1 H) (proj1 (proj2 H))).
  vm_compute. lia.
Defined.

(** The claim as written fails on the [resumed] timestamp: a confirmed
    start that notifies overwrites it. *)
Lemma confirmed_start_frame_counterexample :
  let s := cache [("resumed", 1000%Q)] in
  let w := scene 1700000000 100 [Some "Stopped"; Some "Running"] in
  let r := check_and_act alice no_telegram s w in
  count is_running_seen (events r) = 1%nat ∧
  stored s "i-alice" "resumed" = Some 1000%Q ∧
  stored (store r) "i-alice" "resumed" = Some 1700000010%Q.
Proof. vm_compute. repeat split; reflexivity. Qed.

(** An hour after the mark, a second before that, and no mark at all. *)
Lemma cooldown_check_witness :
  let s := mark_notified 1700000000 ∅ "i-alice" "overlimit" in
  can_notify 1700003600 s "i-alice" "overlimit" (Some 3600%Q) = true ∧
  can_notify 1700003599 s "i-alice" "overlimit" (Some 3600%Q) = false ∧
  can_notify 1700000000 ∅ "i-alice" "overlimit" (Some 3600%Q) = Qle_bool 3600 1700000000.
Proof.
  intros s.
  pose (w := world_with 1700000000 (Answer []) [] Missing).
  refine (let H := cooldown_check 1700003600 1700000000 ∅ "i-alice" "overlimit" 3600 w in
          let H' := cooldown_check 1700003599 1700000000 ∅ "i-alice" "overlimit" 3600 w in
          let H'' := cooldown_check 1700000000 0 ∅ "i-alice" "overlimit" 3600 w in
          conj (proj2 (proj1 (proj2 H) eq_refl eq_refl eq_refl) _)
            (conj (proj1 (proj1 (proj2 H') eq_refl eq_refl eq_refl) _)
               (proj1 H'' _))).
  - vm_compute. discriminate.
  - vm_compute. reflexivity.
  - vm_compute. reflexivity.
Defined.

(** The claim as written fails in two places. Without a stored timestamp
    the check answers [False] when the window is longer than the time
    since the epoch, the missing timestamp being read as 0: a long window,
    or the default window on a machine whose clock was never set. And the
    check that follows a mark reads the clock again: it answers [True] for
    a positive window shorter than the time between the two readings. *)
Lemma cooldown_check_counterexample :
  let w := world_of 1700000000 (1 # 1024) (Answer []) [] Missing in
  stored ∅ "i-alice" "overlimit" = None ∧
  can_notify 1700000000 ∅ "i-alice" "overlimit" (Some 2000000000%Q) = false ∧
  can_notify 100 ∅ "i-alice" "overlimit" None = false ∧
  (0 < 1 # 2048)%Q ∧
  result ((mark_notified_now "i-alice" "overlimit";;
           can_notify_now "i-alice" "overlimit" (Some (1 # 2048))) ∅ w) = Done true.
Proof. vm_compute. repeat split; reflexivity. Qed.

Lemma cooldown_stays_elapsed_witness :
  let s := mark_notified 1700000000 ∅ "i-alice" "overlimit" in
  can_notify 1700007200 s "i-alice" "overlimit" (Some 1800%Q) = true.
Proof.
  intros s.
  refine (proj1 (cooldown_stays_elapsed 1700003600 1700007200 s "i-alice" "overlimit"
                   3600 1800 _ _ _)).
  - vm_compute. reflexivity.
  - vm_compute. discriminate.
  - vm_compute. discriminate.
Defined.

(** An instance that is starting, the traffic below the limit. *)
Lemma steady_cycle_witness :
  let w := scene 1700000000 100 [Some "Starting"] in
  let r := check_and_act alice no_telegram (cache [("start_failures", 2%Q)]) w in
  store r = cache [("start_failures", 2%Q)].
Proof.
  intros w r.
  refine (proj2 (steady_cycle alice no_telegram (cache [("start_failures", 2%Q)]) w
                   (gigabytes [Some (100 * GiB)]) "Starting" _ _ _)).
  - exists [Some (100 * GiB)], w, [Some "Starting"], (set_statuses [] w).
    repeat split; reflexivity.
  - vm_compute. reflexivity.
  - discriminate.
Defined.

(** A third start that times out: the counter goes from 2 to 3. *)
Lemma failure_counter_range_witness :
  let s := cache [("start_failures", 2%Q)] in
  let w := scene 1700000000 100 (Some "Stopped" :: replicate 12 (Some "Starting")) in
  let loop := for_each [alice] (fun u => check_and_act u no_telegram) s w in
  ∃ n' : Z, 0 <= n' <= 3 ∧ (get_start_failures (store loop) "i-alice" == inject_Z n')%Q.
Proof.
  intros s w loop.
  refine (proj2 (failure_counter_range alice no_telegram [alice] s w "i-alice" 2 _ _)).
  - lia.
  - vm_compute. reflexivity.
Defined.

Lemma main_keeps_absent_targets_witness :
  let w := scene 1700000000 100 [Some "Running"] in
  store (main ∅ w) !! "i-bob" = initial_state w !! "i-bob".
Proof.
  intros w.
  refine (proj1 (proj1 (main_keeps_absent_targets
                          {| users := Some [alice]; telegram := None |} ∅ w "i-bob"
                          eq_refl) _)).
  intros u Hu. apply list_elem_of_In in Hu. simpl in Hu.
  destruct Hu as [<-|[]]. discriminate.
Defined.

(** A stop at 200 GB, Telegram not configured: the alert is stamped. *)
Lemma alert_is_stamped_witness :
  let w := scene 1700000000 200 [Some "Running"] in
  let r := check_and_act alice no_telegram ∅ w in
  ∃ t m c now,
    EvAlert t m c ∈ events r ∧
    EvTime now ∈ events r ∧
    stored (store r) "i-alice" (key_of_title t) = Some now ∧
    msg_name m = "alice" ∧
    (c = green ↔ t = TitleResumed).
Proof.
  intros w r.
  refine (alert_is_stamped alice no_telegram ∅ w _).
  vm_compute. reflexivity.
Defined.

(** An overlimit cycle on a stopped instance whose cooldown has not
    elapsed: nothing is written. *)
Lemma cycle_write_set_witness :
  let s := cache [("overlimit", 1699999000%Q)] in
  let w := scene 1700000000 200 [Some "Stopped"] in
  store (check_and_act alice no_telegram s w) = s.
Proof.
  intros s w.
  refine (proj2 (proj2 (proj2 (cycle_write_set alice no_telegram s w))) _ _ _).
  - vm_compute. reflexivity.
  - vm_compute. reflexivity.
  - intros Hin. apply list_elem_of_In in Hin. vm_compute in Hin.
    repeat (destruct Hin as [Hin|Hin]; [discriminate Hin|]). exact Hin.
Defined.

